(** * Scholar's Lens API (server.py): text cleaning, notes parsing, upload

    A shallow embedding of [server.py].  Python [str] values are lists of
    Unicode code points, [bytes] values are lists of bytes.  The calls into
    the standard library ([str.split], [str.strip], [str.replace],
    [re.fullmatch], [re.match], [re.sub], [bytes.decode]) are modelled by
    executable functions; the PDF library and the language model are
    outside the repository and enter as parameters. *)

From Stdlib Require Import List NArith Bool Arith Lia.
From Stdlib Require Import Strings.String Strings.Ascii Strings.Byte.
Import ListNotations.

Local Open Scope N_scope.

(** ** Python strings *)

Definition char := N.
Definition str := list char.

(** ASCII literal of the source, as a list of code points. *)
Definition py (s : string) : str := map N_of_ascii (list_ascii_of_string s).

Definition NL : char := 10.
Definition SP : char := 32.
Definition QUOTE : char := 34.

(** Code points for which [str.isspace] holds; [str.strip] and the regular
    expression class [\s] (on [str] patterns) both use this set. *)
Definition whitespace_table : list char :=
  [ 0x09; 0x0a; 0x0b; 0x0c; 0x0d; 0x1c; 0x1d; 0x1e; 0x1f; 0x20; 0x85; 0xa0;
    0x1680; 0x2000; 0x2001; 0x2002; 0x2003; 0x2004; 0x2005; 0x2006; 0x2007;
    0x2008; 0x2009; 0x200a; 0x2028; 0x2029; 0x202f; 0x205f; 0x3000 ].

Definition isspace (c : char) : bool := existsb (N.eqb c) whitespace_table.

(** First code point of every run of ten decimal digits (general category
    Nd, Unicode 14.0); the class [\d] on [str] patterns. *)
Definition decimal_zero_table : list char :=
  [ 0x30; 0x660; 0x6f0; 0x7c0; 0x966; 0x9e6; 0xa66; 0xae6; 0xb66; 0xbe6;
    0xc66; 0xce6; 0xd66; 0xde6; 0xe50; 0xed0; 0xf20; 0x1040; 0x1090; 0x17e0;
    0x1810; 0x1946; 0x19d0; 0x1a80; 0x1a90; 0x1b50; 0x1bb0; 0x1c40; 0x1c50;
    0xa620; 0xa8d0; 0xa900; 0xa9d0; 0xa9f0; 0xaa50; 0xabf0; 0xff10; 0x104a0;
    0x10d30; 0x11066; 0x110f0; 0x11136; 0x111d0; 0x112f0; 0x11450; 0x114d0;
    0x11650; 0x116c0; 0x11730; 0x118e0; 0x11950; 0x11c50; 0x11d50; 0x11da0;
    0x16a60; 0x16ac0; 0x16b50;
    0x1d7ce; 0x1d7d8; 0x1d7e2; 0x1d7ec; 0x1d7f6;
    0x1e140; 0x1e2f0; 0x1e950; 0x1fbf0 ].

Definition isdecimal (c : char) : bool :=
  existsb (fun zero => (zero <=? c) && (c <? zero + 10)) decimal_zero_table.

Definition is_ascii_upper (c : char) : bool := (0x41 <=? c) && (c <=? 0x5a).
Definition is_ascii_lower (c : char) : bool := (0x61 <=? c) && (c <=? 0x7a).

(** Code points that a pattern literal [c] matches under [re.IGNORECASE]:
    both cases of an ASCII letter, and the three letters with further
    case-equivalent code points (dotted and dotless i, long s, Kelvin
    sign).  Pattern literals of this program are ASCII. *)
Definition case_variants (c : char) : list char :=
  let lower := if is_ascii_upper c then c + 32 else c in
  if is_ascii_lower lower then
    [lower - 32; lower] ++
    (if lower =? 0x69 then [0x130; 0x131]
     else if lower =? 0x73 then [0x17f]
     else if lower =? 0x6b then [0x212a]
     else [])
  else [c].

Definition null (s : str) : bool :=
  match s with [] => true | _ :: _ => false end.

Fixpoint str_eqb (a b : str) : bool :=
  match a, b with
  | [], [] => true
  | x :: a', y :: b' => (x =? y) && str_eqb a' b'
  | _, _ => false
  end.

(** [s.startswith(p)] *)
Fixpoint startswith (s p : str) {struct p} : bool :=
  match p with
  | [] => true
  | a :: p' =>
      match s with
      | [] => false
      | b :: s' => (a =? b) && startswith s' p'
      end
  end.

(** [s.endswith(p)] *)
Definition endswith (s p : str) : bool := startswith (rev s) (rev p).

(** [sub in s] *)
Fixpoint contains (sub s : str) : bool :=
  startswith s sub ||
  match s with
  | [] => false
  | _ :: s' => contains sub s'
  end.

(** [s.lstrip()], [s.rstrip()], [s.strip()] *)
Fixpoint lstrip (s : str) : str :=
  match s with
  | [] => []
  | c :: s' => if isspace c then lstrip s' else s
  end.

Definition rstrip (s : str) : str := rev (lstrip (rev s)).

Definition strip (s : str) : str := rstrip (lstrip s).

(** [sep.join(parts)] *)
Fixpoint join (sep : str) (parts : list str) : str :=
  match parts with
  | [] => []
  | [p] => p
  | p :: ps => p ++ sep ++ join sep ps
  end.

Definition cons_first (c : char) (parts : list str) : list str :=
  match parts with
  | [] => [[c]]
  | p :: ps => (c :: p) :: ps
  end.

(** [s.split(sep)] for a nonempty separator: the occurrences of [sep] are
    found from the left and do not overlap; [skip] counts the code points
    of a found separator that are still to be passed over. *)
Fixpoint split_from (sep : str) (skip : nat) (s : str) : list str :=
  match s with
  | [] => [[]]
  | c :: s' =>
      match skip with
      | S k => split_from sep k s'
      | O =>
          if startswith s sep
          then [] :: split_from sep (Nat.pred (List.length sep)) s'
          else cons_first c (split_from sep 0 s')
      end
  end.

Definition split (sep s : str) : list str := split_from sep 0 s.

(** [s.replace(old, new)] for a nonempty [old]: every occurrence, found
    from the left without overlap. *)
Fixpoint replace_from (old new : str) (skip : nat) (s : str) : str :=
  match s with
  | [] => []
  | c :: s' =>
      match skip with
      | S k => replace_from old new k s'
      | O =>
          if startswith s old
          then new ++ replace_from old new (Nat.pred (List.length old)) s'
          else c :: replace_from old new 0 s'
      end
  end.

Definition replace (old new s : str) : str := replace_from old new 0 s.

(** ** Regular expressions (module [re]) *)

Module re.

Inductive regex : Type :=
| Void : regex
| Eps : regex
| Class : (char -> bool) -> regex
| Cat : regex -> regex -> regex
| Alt : regex -> regex -> regex
| Star : regex -> regex.

(** [r+] *)
Definition Plus (r : regex) : regex := Cat r (Star r).

(** A literal under [re.IGNORECASE]. *)
Definition lit_i (c : char) : regex :=
  Class (fun x => existsb (N.eqb x) (case_variants c)).

Definition word_i (w : str) : regex :=
  fold_right (fun c r => Cat (lit_i c) r) Eps w.

(** The language of a pattern. *)
Inductive matches : regex -> str -> Prop :=
| MEps : matches Eps []
| MClass : forall p c, p c = true -> matches (Class p) [c]
| MCat : forall r1 r2 s1 s2,
    matches r1 s1 -> matches r2 s2 -> matches (Cat r1 r2) (s1 ++ s2)
| MAltL : forall r1 r2 s, matches r1 s -> matches (Alt r1 r2) s
| MAltR : forall r1 r2 s, matches r2 s -> matches (Alt r1 r2) s
| MStarNil : forall r, matches (Star r) []
| MStarApp : forall r s1 s2,
    matches r s1 -> matches (Star r) s2 -> matches (Star r) (s1 ++ s2).

(** The matcher: derivatives of the pattern by the code points read. *)
Fixpoint nullable (r : regex) : bool :=
  match r with
  | Void => false
  | Eps => true
  | Class _ => false
  | Cat r1 r2 => nullable r1 && nullable r2
  | Alt r1 r2 => nullable r1 || nullable r2
  | Star _ => true
  end.

Fixpoint deriv (c : char) (r : regex) : regex :=
  match r with
  | Void => Void
  | Eps => Void
  | Class p => if p c then Eps else Void
  | Cat r1 r2 =>
      if nullable r1
      then Alt (Cat (deriv c r1) r2) (deriv c r2)
      else Cat (deriv c r1) r2
  | Alt r1 r2 => Alt (deriv c r1) (deriv c r2)
  | Star r1 => Cat (deriv c r1) (Star r1)
  end.

(** [re.fullmatch(r, s)] as a truth value: the whole of [s] matches. *)
Fixpoint fullmatch (r : regex) (s : str) : bool :=
  match s with
  | [] => nullable r
  | c :: s' => fullmatch (deriv c r) s'
  end.

(** [re.match(r, s)] as a truth value: some prefix of [s] matches. *)
Fixpoint re_match (r : regex) (s : str) : bool :=
  nullable r ||
  match s with
  | [] => false
  | c :: s' => re_match (deriv c r) s'
  end.

(** Length of the longest prefix of [s] that matches [r], if any. *)
Fixpoint longest (r : regex) (s : str) : option nat :=
  match s with
  | [] => if nullable r then Some O else None
  | c :: s' =>
      match longest (deriv c r) s' with
      | Some n => Some (S n)
      | None => if nullable r then Some O else None
      end
  end.

(** [re.sub(r, repl, s)] for a pattern whose only choice is a greedy
    repetition and which matches no empty string, as [\s+]: every leftmost
    longest match is replaced by [repl]; [skip] counts the code points of
    the current match still to be passed over. *)
Fixpoint sub_from (r : regex) (repl : str) (skip : nat) (s : str) : str :=
  match s with
  | [] => []
  | c :: s' =>
      match skip with
      | S k => sub_from r repl k s'
      | O =>
          match longest r s with
          | Some (S n) => repl ++ sub_from r repl n s'
          | _ => c :: sub_from r repl 0 s'
          end
      end
  end.

Definition sub (r : regex) (repl s : str) : str := sub_from r repl 0 s.

End re.

(** ** Utilities of server.py *)

(** [r"\d+"] *)
Definition digits_re : re.regex := re.Plus (re.Class isdecimal).

(** [r"^(Page|Chapter|Section)\s*\d+"] with [re.I]; the anchor is the
    start of the string, where [re.match] starts. *)
Definition header_re : re.regex :=
  re.Cat
    (re.Alt (re.word_i (py "Page"))
       (re.Alt (re.word_i (py "Chapter")) (re.word_i (py "Section"))))
    (re.Cat (re.Star (re.Class isspace)) (re.Plus (re.Class isdecimal))).

(** [r"\s+"] *)
Definition spaces_re : re.regex := re.Plus (re.Class isspace).

Definition keep_line (line : str) : bool :=
  negb (null line)
  && negb (re.fullmatch digits_re line)
  && negb (re.re_match header_re line).

Definition clean_text (text : str) : str :=
  let lines := map strip (split [NL] text) in
  let lines := filter keep_line lines in
  re.sub spaces_re [SP] (join [SP] lines).

(** ** The Text Cleaner as the specification words it

    Used only to compare with [clean_text]. *)

(** A line that consists entirely of digits. *)
Definition all_digits (line : str) : bool :=
  negb (null line) && forallb isdecimal line.

(** [line] without a leading [w], compared without regard to letter case. *)
Fixpoint strip_word_i (w line : str) {struct w} : option str :=
  match w with
  | [] => Some line
  | a :: w' =>
      match line with
      | [] => None
      | b :: line' =>
          if existsb (N.eqb b) (case_variants a)
          then strip_word_i w' line'
          else None
      end
  end.

Definition header_words : list str := [py "Page"; py "Chapter"; py "Section"].

(** A line that begins with Page, Chapter or Section in any letter case,
    then optional whitespace, then a digit. *)
Definition header_line (line : str) : bool :=
  existsb
    (fun w =>
       match strip_word_i w line with
       | Some rest =>
           match lstrip rest with
           | d :: _ => isdecimal d
           | [] => false
           end
       | None => false
       end)
    header_words.

Definition discard_line (line : str) : bool :=
  null line || all_digits line || header_line line.

(** Every run of whitespace becomes one space; [in_run] tells that the
    previous code point was whitespace. *)
Fixpoint squeeze (in_run : bool) (s : str) : str :=
  match s with
  | [] => []
  | c :: s' =>
      if isspace c
      then if in_run then squeeze true s' else SP :: squeeze true s'
      else c :: squeeze false s'
  end.

(** Number of code points at the start of [s] that satisfy [p]. *)
Fixpoint run (p : char -> bool) (s : str) : nat :=
  match s with
  | [] => O
  | c :: s' => if p c then S (run p s') else O
  end.

Definition collapse_whitespace (s : str) : str := squeeze false s.

Definition clean_text_spec (text : str) : str :=
  let trimmed := map strip (split [NL] text) in
  let survivors := filter (fun line => negb (discard_line line)) trimmed in
  collapse_whitespace (join [SP] survivors).

(** A nonempty string with no whitespace at either end. *)
Definition tight (s : str) : Prop :=
  isspace (hd SP s) = false /\ isspace (last s SP) = false.

(** Two neighbouring space characters somewhere in [s]. *)
Fixpoint double_space (s : str) : bool :=
  match s with
  | [] => false
  | a :: t =>
      match t with
      | [] => false
      | b :: _ => ((a =? SP) && (b =? SP)) || double_space t
      end
  end.

(** ** Notes Generator *)

Record Sections : Type := mkSections {
  short_notes : str;
  bullet_points : str;
  exam_summary : str
}.

Definition DELIMITER : str := py "###".
Definition SHORT_NOTES : str := py "Short Notes".
Definition BULLET_POINTS : str := py "Bullet Points".
Definition EXAM_SUMMARY : str := py "Exam-Oriented Summary".

(** The prompt of [generate_notes] (an f-string). *)
Definition build_prompt (text difficulty : str) : str :=
  [NL] ++ py "You are an academic notes generator." ++ [NL]
  ++ [NL] ++ py "Input Text:" ++ [NL]
  ++ [QUOTE; QUOTE; QUOTE] ++ text ++ [QUOTE; QUOTE; QUOTE] ++ [NL]
  ++ [NL] ++ py "Difficulty: " ++ difficulty ++ [NL]
  ++ [NL] ++ py "Rules:" ++ [NL]
  ++ py "- No emojis" ++ [NL]
  ++ py "- No extra information" ++ [NL]
  ++ py "- Use **bold** for keywords" ++ [NL]
  ++ py "- Exam-oriented" ++ [NL]
  ++ py "- Simple language" ++ [NL]
  ++ [NL] ++ py "Output EXACTLY in this format:" ++ [NL]
  ++ [NL] ++ py "### Short Notes" ++ [NL] ++ py "..." ++ [NL]
  ++ [NL] ++ py "### Bullet Points" ++ [NL] ++ py "..." ++ [NL]
  ++ [NL] ++ py "### Exam-Oriented Summary" ++ [NL] ++ py "..." ++ [NL].

(** One turn of the loop over the parts of the response. *)
Definition classify (sections : Sections) (part : str) : Sections :=
  let part := strip part in
  if startswith part SHORT_NOTES then
    mkSections (strip (replace SHORT_NOTES [] part))
      (bullet_points sections) (exam_summary sections)
  else if startswith part BULLET_POINTS then
    mkSections (short_notes sections)
      (strip (replace BULLET_POINTS [] part)) (exam_summary sections)
  else if startswith part EXAM_SUMMARY then
    mkSections (short_notes sections) (bullet_points sections)
      (strip (replace EXAM_SUMMARY [] part))
  else sections.

Definition parse_sections (output : str) : Sections :=
  fold_left classify (split DELIMITER output) (mkSections [] [] []).

(** [generate_content prompt] is the [text] attribute of the model's
    response, [None] when it has none. *)
Definition generate_notes (generate_content : str -> option str)
    (text difficulty : str) : Sections :=
  let prompt := build_prompt text difficulty in
  let output :=
    match generate_content prompt with
    | Some t => t
    | None => []
    end in
  parse_sections output.

(** The last of the trimmed parts that starts with [label]. *)
Definition last_part_with (label : str) (parts : list str) : option str :=
  find (fun part => startswith part label) (rev (map strip parts)).

(** What a section holds according to the parts of the response. *)
Definition section_of (label : str) (parts : list str) : str :=
  match last_part_with label parts with
  | Some part => strip (replace label [] part)
  | None => []
  end.

(** The three headings, their labels and their fields. *)
Inductive heading : Type := ShortNotes | BulletPoints | ExamSummary.

Definition label (h : heading) : str :=
  match h with
  | ShortNotes => SHORT_NOTES
  | BulletPoints => BULLET_POINTS
  | ExamSummary => EXAM_SUMMARY
  end.

Definition field (h : heading) (notes : Sections) : str :=
  match h with
  | ShortNotes => short_notes notes
  | BulletPoints => bullet_points notes
  | ExamSummary => exam_summary notes
  end.

Definition with_field (h : heading) (v : str) (notes : Sections) : Sections :=
  match h with
  | ShortNotes => mkSections v (bullet_points notes) (exam_summary notes)
  | BulletPoints => mkSections (short_notes notes) v (exam_summary notes)
  | ExamSummary => mkSections (short_notes notes) (bullet_points notes) v
  end.

(** The text of the response, empty when the response has none. *)
Definition response_text (generate_content : str -> option str)
    (text difficulty : str) : str :=
  match generate_content (build_prompt text difficulty) with
  | Some t => t
  | None => []
  end.

Definition HASH : char := 35.

(** [x] holds no delimiter and forms none with a delimiter that follows. *)
Definition delimiter_free (x : str) : bool :=
  negb (contains DELIMITER x) && negb (endswith x [HASH]).

(** A body that is not blank and does not repeat its own label. *)
Definition plain_body (lbl body : str) : bool :=
  negb (null (strip body)) && negb (contains lbl body).

(** A section of a well-formed response: delimiter, optional whitespace,
    heading label, body. *)
Definition block (ws lbl body : str) : str := DELIMITER ++ ws ++ lbl ++ body.

(** Sample texts. *)
Definition example_page : str :=
  py "1" ++ [NL] ++ py "Introduction to Thermodynamics" ++ [NL]
  ++ py "Page 1" ++ [NL] ++ py "Heat is energy.".

Definition chapter_line_break : str :=
  py "Chapter" ++ [NL] ++ py "3 covers heat.".

Definition artifact_page : str :=
  py "12" ++ [NL] ++ py "  Page 3 " ++ [NL] ++ [NL] ++ py "chapter4"
  ++ [NL] ++ py "SECTION   10.2 Heat".

(** Sample responses of the model. *)
Definition subheading_body : str :=
  [NL] ++ py "alpha" ++ [NL] ++ py "#### Detail" ++ [NL] ++ py "beta" ++ [NL].

Definition subheading_response : str :=
  block [SP] SHORT_NOTES subheading_body
  ++ block [SP] BULLET_POINTS ([NL] ++ py "- x" ++ [NL])
  ++ block [SP] EXAM_SUMMARY ([NL] ++ py "y" ++ [NL]).

Definition tidy_response : str :=
  py "Here are the notes." ++ [NL]
  ++ block [SP] SHORT_NOTES ([NL] ++ py "Heat is **energy**." ++ [NL] ++ [NL])
  ++ block [SP] BULLET_POINTS
       ([NL] ++ py "- heat" ++ [NL] ++ py "- work" ++ [NL] ++ [NL])
  ++ block [SP] EXAM_SUMMARY ([NL] ++ py "Define heat. Use C#" ++ [NL]).

Definition no_bullets_response : str :=
  block [SP] SHORT_NOTES ([NL] ++ py "A" ++ [NL])
  ++ block [SP] EXAM_SUMMARY ([NL] ++ py "B" ++ [NL]).

(** ** Exceptions and the open documents of the PDF library *)

Definition bytes := list byte.

Inductive exn : Type :=
| HTTPException (status_code : N) (detail : str)
| UnicodeDecodeError
| FitzError.

Inductive result (A : Type) : Type :=
| Ok (a : A)
| Raise (e : exn).

Arguments Ok {A} a.
Arguments Raise {A} e.

Record fitz_state : Type := mkFitz {
  next_handle : nat;
  open_documents : list nat
}.

Definition M (A : Type) : Type := fitz_state -> result A * fitz_state.

Definition ret {A : Type} (a : A) : M A := fun st => (Ok a, st).

Definition raise {A : Type} (e : exn) : M A := fun st => (Raise e, st).

Definition bind {A B : Type} (m : M A) (k : A -> M B) : M B :=
  fun st =>
    match m st with
    | (Ok a, st') => k a st'
    | (Raise e, st') => (Raise e, st')
    end.

(** [try: body except Exception: handler] *)
Definition try_except {A : Type} (body : M A) (handler : exn -> M A) : M A :=
  fun st =>
    match body st with
    | (Ok a, st') => (Ok a, st')
    | (Raise e, st') => handler e st'
    end.

Notation "x <- m ;; k" := (bind m (fun x => k))
  (at level 61, m at next level, right associativity).

Fixpoint mapM {A B : Type} (f : A -> M B) (l : list A) : M (list B) :=
  match l with
  | [] => ret []
  | a :: l' => b <- f a ;; bs <- mapM f l' ;; ret (b :: bs)
  end.

(** An opened document: its handle, and for each page the text that
    [get_text] returns, or [None] when reading the page raises. *)
Record Document : Type := mkDocument {
  handle : nat;
  pages : list (option str)
}.

Definition is_cont (x : N) : bool := (0x80 <=? x) && (x <=? 0xbf).

(** [bs.decode("utf-8")], strict: [None] stands for [UnicodeDecodeError]. *)
Fixpoint utf8_decode (bs : bytes) : option str :=
  match bs with
  | [] => Some []
  | b0 :: r0 =>
      let x0 := Byte.to_N b0 in
      if x0 <? 0x80 then option_map (cons x0) (utf8_decode r0)
      else if (0xc2 <=? x0) && (x0 <=? 0xdf) then
        match r0 with
        | b1 :: r1 =>
            let x1 := Byte.to_N b1 in
            if is_cont x1
            then option_map (cons ((x0 - 0xc0) * 64 + (x1 - 0x80)))
                   (utf8_decode r1)
            else None
        | _ => None
        end
      else if (0xe0 <=? x0) && (x0 <=? 0xef) then
        match r0 with
        | b1 :: b2 :: r2 =>
            let x1 := Byte.to_N b1 in
            let x2 := Byte.to_N b2 in
            let lo := if x0 =? 0xe0 then 0xa0 else 0x80 in
            let hi := if x0 =? 0xed then 0x9f else 0xbf in
            if (lo <=? x1) && (x1 <=? hi) && is_cont x2
            then option_map
                   (cons (((x0 - 0xe0) * 64 + (x1 - 0x80)) * 64 + (x2 - 0x80)))
                   (utf8_decode r2)
            else None
        | _ => None
        end
      else if (0xf0 <=? x0) && (x0 <=? 0xf4) then
        match r0 with
        | b1 :: b2 :: b3 :: r3 =>
            let x1 := Byte.to_N b1 in
            let x2 := Byte.to_N b2 in
            let x3 := Byte.to_N b3 in
            let lo := if x0 =? 0xf0 then 0x90 else 0x80 in
            let hi := if x0 =? 0xf4 then 0x8f else 0xbf in
            if (lo <=? x1) && (x1 <=? hi) && is_cont x2 && is_cont x3
            then option_map
                   (cons ((((x0 - 0xf0) * 64 + (x1 - 0x80)) * 64
                           + (x2 - 0x80)) * 64 + (x3 - 0x80)))
                   (utf8_decode r3)
            else None
        | _ => None
        end
      else None
  end.

Definition decode (bs : bytes) : M str :=
  match utf8_decode bs with
  | Some s => ret s
  | None => raise UnicodeDecodeError
  end.

Section Server.

(** What the PDF library makes of a buffer: [None] when [fitz.open]
    raises, otherwise the pages of the document. *)
Variable pdf_pages : bytes -> option (list (option str)).

(** [fitz.open(stream=file_bytes, filetype="pdf")] *)
Definition fitz_open (file_bytes : bytes) : M Document :=
  fun st =>
    match pdf_pages file_bytes with
    | None => (Raise FitzError, st)
    | Some ps =>
        let h := next_handle st in
        (Ok (mkDocument h ps), mkFitz (S h) (h :: open_documents st))
    end.

(** [page.get_text()] *)
Definition get_text (page : option str) : M str :=
  match page with
  | Some t => ret t
  | None => raise FitzError
  end.

(** [doc.close()] *)
Definition close (doc : Document) : M unit :=
  fun st =>
    (Ok tt,
     mkFitz (next_handle st)
       (filter (fun h => negb (Nat.eqb h (handle doc))) (open_documents st))).

Definition extract_text_from_pdf (file_bytes : bytes) : M str :=
  try_except
    (doc <- fitz_open file_bytes ;;
     texts <- mapM get_text (pages doc) ;;
     let text := join [SP] texts in
     _ <- close doc ;;
     ret text)
    (fun _ => raise (HTTPException 400 (py "PDF text extraction failed"))).

(** The dispatch on the extension of the file name in [upload_file]. *)
Definition read_text (filename : str) (file_bytes : bytes) : M str :=
  if endswith filename (py ".pdf") then extract_text_from_pdf file_bytes
  else if endswith filename (py ".txt") then decode file_bytes
  else raise (HTTPException 400 (py "Only PDF and TXT supported")).

(** The handler of [POST /upload]; the value returned stands for the
    response [{"text": cleaned}]. *)
Definition upload_file (filename : str) (file_bytes : bytes) : M str :=
  text <- read_text filename file_bytes ;;
  let cleaned := clean_text text in
  if null cleaned
  then raise (HTTPException 400 (py "No valid text found"))
  else ret cleaned.

End Server.

Definition initial_state : fitz_state := mkFitz 0 [].

Definition ascii_bytes (s : string) : bytes := list_byte_of_string s.

(** The response of [upload_file] to a file name with neither extension. *)
Definition unsupported_format : exn :=
  HTTPException 400 (py "Only PDF and TXT supported").

Definition raises_unsupported_format (r : result str) : bool :=
  match r with
  | Raise (HTTPException status detail) =>
      (status =? 400) && str_eqb detail (py "Only PDF and TXT supported")
  | _ => false
  end.

(** A document that opens but whose second page cannot be read, as a
    damaged or password-protected file. *)
Definition unreadable_pdf : bytes -> option (list (option str)) :=
  fun _ => Some [Some (py "page one"); None].

Definition no_pdf : bytes -> option (list (option str)) := fun _ => None.

(** ** Further parts of server.py *)

Definition CR : char := 13.
Definition COMMA : char := 44.

(** [os.getenv("CORS_ORIGINS", "*").split(",")]: [env] is the value of
    the variable, [None] when it is not set. *)
Definition cors_allow_origins (env : option str) : list str :=
  split [COMMA]
    (match env with
     | Some value => value
     | None => py "*"
     end).

(** The request and the handler of [POST /summarize]; the response model
    has the three fields of the notes. *)
Record SummarizeRequest : Type := mkSummarizeRequest {
  text : str;
  difficulty : str
}.

Definition summarize (generate_content : str -> option str)
    (req : SummarizeRequest) : Sections :=
  let notes := generate_notes generate_content (text req) (difficulty req) in
  mkSections (short_notes notes) (bullet_points notes) (exam_summary notes).

(** Two cleaned texts put together: one space between them when both are
    present. *)
Definition glue (x y : str) : str :=
  if null x then y else if null y then x else x ++ [SP] ++ y.

(** The lines that [clean_text] keeps. *)
Definition kept_lines (t : str) : list str :=
  filter keep_line (map strip (split [NL] t)).

(** [c] appended to the last of the parts. *)
Fixpoint snoc_last (c : char) (parts : list str) : list str :=
  match parts with
  | [] => [[c]]
  | [p] => [p ++ [c]]
  | p :: ps => p :: snoc_last c ps
  end.

(** Length of the parts with one separator after each of them. *)
Fixpoint weight (parts : list str) : nat :=
  match parts with
  | [] => O
  | p :: ps => S (List.length p + weight ps)
  end.

(** The texts of the pages when every page can be read. *)
Fixpoint all_texts (ps : list (option str)) : option (list str) :=
  match ps with
  | [] => Some []
  | None :: _ => None
  | Some t :: ps' => option_map (cons t) (all_texts ps')
  end.

(** Every open document was opened before: its handle is below the next
    one. *)
Definition handles_fresh (st : fitz_state) : Prop :=
  Forall (fun k => (k < next_handle st)%nat) (open_documents st).

Definition extraction_failed : exn :=
  HTTPException 400 (py "PDF text extraction failed").

Definition no_valid_text : exn :=
  HTTPException 400 (py "No valid text found").

(** The prompt up to the format it asks for, and the body that stands
    for each section in that format. *)
Definition prompt_head (text difficulty : str) : str :=
  [NL] ++ py "You are an academic notes generator." ++ [NL]
  ++ [NL] ++ py "Input Text:" ++ [NL]
  ++ [QUOTE; QUOTE; QUOTE] ++ text ++ [QUOTE; QUOTE; QUOTE] ++ [NL]
  ++ [NL] ++ py "Difficulty: " ++ difficulty ++ [NL]
  ++ [NL] ++ py "Rules:" ++ [NL]
  ++ py "- No emojis" ++ [NL]
  ++ py "- No extra information" ++ [NL]
  ++ py "- Use **bold** for keywords" ++ [NL]
  ++ py "- Exam-oriented" ++ [NL]
  ++ py "- Simple language" ++ [NL]
  ++ [NL] ++ py "Output EXACTLY in this format:" ++ [NL]
  ++ [NL].

Definition placeholder : str := py "...".

(** Sample responses with a repeated heading and in another order. *)
Definition repeated_response : str :=
  block [SP] SHORT_NOTES ([NL] ++ py "draft" ++ [NL])
  ++ block [SP] EXAM_SUMMARY ([NL] ++ py "y" ++ [NL]).

Definition reordered_response : str :=
  py "Notes:" ++ [NL]
  ++ block [SP] EXAM_SUMMARY ([NL] ++ py "Define heat." ++ [NL])
  ++ block [] SHORT_NOTES ([NL] ++ py "Heat is energy." ++ [NL])
  ++ block [SP] BULLET_POINTS ([NL] ++ py "- heat" ++ [NL]).

(** Sample files. *)
Definition two_pages : bytes -> option (list (option str)) :=
  fun _ => Some [Some (py "Heat is"); Some (py "energy.")].

Definition busy_state : fitz_state := mkFitz 3 [2%nat; 0%nat].

(** The exceptions that leave [upload_file]. *)
Definition upload_errors : list exn :=
  [unsupported_format; extraction_failed; no_valid_text; UnicodeDecodeError].

(** A Unicode scalar value: at most U+10FFFF and no surrogate. *)
Definition is_scalar (c : char) : bool :=
  (c <? 0x110000) && negb ((0xd800 <=? c) && (c <=? 0xdfff)).

(** * Properties *)

(** ** Code points *)

Lemma isspace_SP : isspace SP = true.
Proof. reflexivity. Qed.

Lemma isspace_NL : isspace NL = true.
Proof. reflexivity. Qed.

Lemma isspace_table (c : char) : isspace c = true -> In c whitespace_table.
Proof.
  unfold isspace. intros H. apply existsb_exists in H.
  destruct H as [x [Hin Hx]]. apply N.eqb_eq in Hx. now subst.
Qed.

Lemma space_not_decimal (c : char) : isspace c = true -> isdecimal c = false.
Proof.
  intros H. apply isspace_table in H. unfold whitespace_table in H.
  simpl in H.
  repeat (destruct H as [H | H]; [subst c; vm_compute; reflexivity |]).
  contradiction.
Qed.

Lemma decimal_not_space (c : char) : isdecimal c = true -> isspace c = false.
Proof.
  intros H. destruct (isspace c) eqn:E; [| reflexivity].
  apply space_not_decimal in E. congruence.
Qed.

(** ** The matcher decides the language of the pattern *)

Lemma nullable_matches (r : re.regex) :
  re.nullable r = true <-> re.matches r [].
Proof.
  induction r; simpl; split; intros H.
  - discriminate.
  - inversion H.
  - constructor.
  - reflexivity.
  - discriminate.
  - inversion H.
  - apply andb_true_iff in H. destruct H as [H1 H2].
    change (@nil char) with (@nil char ++ []).
    constructor; [now apply IHr1 | now apply IHr2].
  - inversion H; subst.
    match goal with
    | E : _ ++ _ = [] |- _ => apply app_eq_nil in E; destruct E
    end.
    subst. apply andb_true_iff. split; [now apply IHr1 | now apply IHr2].
  - apply orb_true_iff in H. destruct H as [H | H].
    + apply re.MAltL. now apply IHr1.
    + apply re.MAltR. now apply IHr2.
  - apply orb_true_iff. inversion H; subst.
    + left. now apply IHr1.
    + right. now apply IHr2.
  - constructor.
  - reflexivity.
Qed.

Lemma star_cons_inv (r : re.regex) (c : char) (s : str) :
  re.matches (re.Star r) (c :: s) ->
  exists s1 s2, s = s1 ++ s2 /\ re.matches r (c :: s1)
                /\ re.matches (re.Star r) s2.
Proof.
  intros H. remember (re.Star r) as r' eqn:Er. remember (c :: s) as t eqn:Et.
  revert Er Et.
  induction H; intros Er Et; try discriminate.
  injection Er as ->.
  destruct s1 as [| a s1'].
  - simpl in Et. now apply IHmatches2.
  - simpl in Et. injection Et as -> <-.
    now exists s1', s2.
Qed.

Lemma deriv_matches (r : re.regex) :
  forall c s, re.matches (re.deriv c r) s <-> re.matches r (c :: s).
Proof.
  induction r; intros c s; simpl.
  - split; intros H; inversion H.
  - split; intros H; inversion H.
  - destruct (b c) eqn:E; split; intros H.
    + inversion H; subst. now constructor.
    + inversion H; subst. constructor.
    + inversion H.
    + inversion H; subst. congruence.
  - destruct (re.nullable r1) eqn:E; split; intros H.
    + inversion H; subst.
      * match goal with M : re.matches (re.Cat _ _) _ |- _ =>
          inversion M; subst end.
        change (c :: s1 ++ s2) with ((c :: s1) ++ s2).
        constructor; [now apply IHr1 | assumption].
      * change (c :: s) with ([] ++ c :: s).
        constructor; [now apply nullable_matches | now apply IHr2].
    + inversion H; subst.
      destruct s1 as [| a s1'].
      * simpl in *. subst. apply re.MAltR. now apply IHr2.
      * match goal with E' : _ ++ _ = _ :: _ |- _ =>
          simpl in E'; injection E' as -> <- end.
        apply re.MAltL. constructor; [now apply IHr1 | assumption].
    + inversion H; subst.
      change (c :: s1 ++ s2) with ((c :: s1) ++ s2).
      constructor; [now apply IHr1 | assumption].
    + inversion H; subst.
      destruct s1 as [| a s1'].
      * match goal with M : re.matches r1 [] |- _ =>
          apply nullable_matches in M end. congruence.
      * match goal with E' : _ ++ _ = _ :: _ |- _ =>
          simpl in E'; injection E' as -> <- end.
        constructor; [now apply IHr1 | assumption].
  - split; intros H; inversion H; subst.
    + apply re.MAltL. now apply IHr1.
    + apply re.MAltR. now apply IHr2.
    + apply re.MAltL. now apply IHr1.
    + apply re.MAltR. now apply IHr2.
  - split; intros H.
    + inversion H; subst.
      change (c :: s1 ++ s2) with ((c :: s1) ++ s2).
      constructor; [now apply IHr | assumption].
    + apply star_cons_inv in H. destruct H as [s1 [s2 [-> [H1 H2]]]].
      constructor; [now apply IHr | assumption].
Qed.

Lemma fullmatch_matches (s : str) :
  forall r, re.fullmatch r s = true <-> re.matches r s.
Proof.
  induction s as [| c s IH]; intros r; simpl.
  - apply nullable_matches.
  - rewrite IH. apply deriv_matches.
Qed.

Lemma re_match_prefix (s : str) :
  forall r, re.re_match r s = true <->
            exists p q, s = p ++ q /\ re.matches r p.
Proof.
  induction s as [| c s IH]; intros r; simpl.
  - rewrite orb_false_r. rewrite nullable_matches. split.
    + intros H. now exists [], [].
    + intros [p [q [E H]]]. symmetry in E. apply app_eq_nil in E.
      destruct E; now subst.
  - rewrite orb_true_iff, nullable_matches, IH. split.
    + intros [H | [p [q [-> H]]]].
      * now exists [], (c :: s).
      * exists (c :: p), q. split; [reflexivity | now apply deriv_matches].
    + intros [p [q [E H]]]. destruct p as [| a p].
      * now left.
      * simpl in E. injection E as <- ->. right.
        exists p, q. split; [reflexivity | now apply deriv_matches].
Qed.



Lemma cat_inv (a b : re.regex) (s : str) :
  re.matches (re.Cat a b) s <->
  exists s1 s2, s = s1 ++ s2 /\ re.matches a s1 /\ re.matches b s2.
Proof.
  split.
  - intros H. inversion H; subst. now exists s1, s2.
  - intros [s1 [s2 [-> [H1 H2]]]]. now constructor.
Qed.

Lemma alt_inv (a b : re.regex) (s : str) :
  re.matches (re.Alt a b) s <-> re.matches a s \/ re.matches b s.
Proof.
  split.
  - intros H. inversion H; subst; [now left | now right].
  - intros [H | H]; [now apply re.MAltL | now apply re.MAltR].
Qed.

Lemma class_inv (p : char -> bool) (s : str) :
  re.matches (re.Class p) s <-> exists c, s = [c] /\ p c = true.
Proof.
  split.
  - intros H. inversion H; subst. now exists c.
  - intros [c [-> H]]. now constructor.
Qed.

Lemma eps_inv (s : str) : re.matches re.Eps s <-> s = [].
Proof.
  split.
  - intros H. now inversion H.
  - intros ->. constructor.
Qed.

Lemma star_class (p : char -> bool) (s : str) :
  re.matches (re.Star (re.Class p)) s <-> forallb p s = true.
Proof.
  split.
  - intros H. remember (re.Star (re.Class p)) as r eqn:Er. revert Er.
    induction H; intros Er; try discriminate.
    + reflexivity.
    + injection Er as ->. apply class_inv in H. destruct H as [c [-> Hc]].
      simpl. rewrite Hc. now apply IHmatches2.
  - induction s as [| c s IH]; simpl; intros H.
    + constructor.
    + apply andb_true_iff in H. destruct H as [Hc Hs].
      change (c :: s) with ([c] ++ s).
      constructor; [now constructor | now apply IH].
Qed.

Lemma plus_class (p : char -> bool) (s : str) :
  re.matches (re.Plus (re.Class p)) s <->
  negb (null s) && forallb p s = true.
Proof.
  unfold re.Plus. rewrite cat_inv. split.
  - intros [s1 [s2 [-> [H1 H2]]]].
    apply class_inv in H1. destruct H1 as [c [-> Hc]].
    apply star_class in H2. simpl. now rewrite Hc, H2.
  - destruct s as [| c s]; simpl; [discriminate |].
    intros H. apply andb_true_iff in H. destruct H as [Hc Hs].
    exists [c], s. split; [reflexivity |].
    split; [now constructor | now apply star_class].
Qed.

(** [\d+] on the whole line: a nonempty line of digits. *)
Lemma fullmatch_digits (line : str) :
  re.fullmatch digits_re line = all_digits line.
Proof.
  apply eq_true_iff_eq. rewrite fullmatch_matches.
  unfold digits_re, all_digits. apply plus_class.
Qed.

Lemma strip_word_i_matches (w : str) :
  forall line rest,
    strip_word_i w line = Some rest <->
    exists p, line = p ++ rest /\ re.matches (re.word_i w) p.
Proof.
  induction w as [| a w IH]; intros line rest; simpl.
  - split.
    + intros H. injection H as ->. exists [].
      split; [reflexivity | constructor].
    + intros [p [-> H]]. apply eps_inv in H. now subst.
  - split.
    + destruct line as [| b line]; [discriminate |].
      destruct (existsb (N.eqb b) (case_variants a)) eqn:E; [| discriminate].
      intros H. apply IH in H. destruct H as [p [-> Hp]].
      exists (b :: p). split; [reflexivity |].
      change (b :: p) with ([b] ++ p). constructor; [| assumption].
      unfold re.lit_i. now constructor.
    + intros [p [-> H]]. apply cat_inv in H.
      destruct H as [s1 [s2 [-> [H1 H2]]]].
      unfold re.lit_i in H1. apply class_inv in H1.
      destruct H1 as [c [-> Hc]]. simpl. rewrite Hc.
      apply IH. now exists s2.
Qed.

Lemma lstrip_spaces (ws t : str) :
  forallb isspace ws = true -> lstrip (ws ++ t) = lstrip t.
Proof.
  induction ws as [| c ws IH]; simpl; intros H; [reflexivity |].
  apply andb_true_iff in H. destruct H as [Hc Hws]. rewrite Hc. now apply IH.
Qed.

Lemma lstrip_split (s : str) :
  exists ws, s = ws ++ lstrip s /\ forallb isspace ws = true.
Proof.
  induction s as [| c s [ws [E H]]]; simpl.
  - now exists [].
  - destruct (isspace c) eqn:Ec.
    + exists (c :: ws). simpl. rewrite Ec, H.
      split; [now f_equal | reflexivity].
    + now exists [].
Qed.

Lemma lstrip_head (s : str) (c : char) (t : str) :
  lstrip s = c :: t -> isspace c = false.
Proof.
  induction s as [| a s IH]; simpl; [discriminate |].
  destruct (isspace a) eqn:Ea; [assumption |].
  intros H. injection H as <- _. assumption.
Qed.

Lemma lstrip_fixed (c : char) (t : str) :
  isspace c = false -> lstrip (c :: t) = c :: t.
Proof. intros H. simpl. now rewrite H. Qed.

Lemma header_words_matches (p : str) :
  re.matches
    (re.Alt (re.word_i (py "Page"))
       (re.Alt (re.word_i (py "Chapter")) (re.word_i (py "Section")))) p <->
  exists w, In w header_words /\ re.matches (re.word_i w) p.
Proof.
  rewrite !alt_inv. unfold header_words. split.
  - intros [H | [H | H]]; eexists; (split; [| exact H]); simpl; auto.
  - intros [w [Hin H]]. simpl in Hin.
    destruct Hin as [<- | [<- | [<- | []]]]; auto.
Qed.

(** The header pattern at the start of the line. *)
Lemma match_header (line : str) :
  re.re_match header_re line = header_line line.
Proof.
  apply eq_true_iff_eq. rewrite re_match_prefix.
  unfold header_line. rewrite existsb_exists. unfold header_re. split.
  - intros [p [q [-> H]]]. apply cat_inv in H.
    destruct H as [p1 [p2 [-> [H1 H2]]]].
    apply header_words_matches in H1. destruct H1 as [w [Hin Hw]].
    exists w. split; [assumption |].
    apply cat_inv in H2. destruct H2 as [ws [ds [-> [Hws Hds]]]].
    apply star_class in Hws. apply plus_class in Hds.
    assert (E : strip_word_i w ((p1 ++ ws ++ ds) ++ q) = Some (ws ++ ds ++ q)).
    { apply strip_word_i_matches. exists p1.
      split; [now rewrite <- !app_assoc | assumption]. }
    rewrite E. rewrite lstrip_spaces by assumption.
    destruct ds as [| d ds]; [discriminate |].
    simpl in Hds. apply andb_true_iff in Hds. destruct Hds as [Hd _].
    simpl. now rewrite (decimal_not_space d Hd).
  - intros [w [Hin H]].
    destruct (strip_word_i w line) as [rest |] eqn:E; [| discriminate].
    apply strip_word_i_matches in E. destruct E as [p1 [-> Hp1]].
    destruct (lstrip rest) as [| d t] eqn:El; [discriminate |].
    destruct (lstrip_split rest) as [ws [Er Hws]]. rewrite El in Er.
    exists (p1 ++ ws ++ [d]), t. split.
    + rewrite Er. rewrite <- !app_assoc. reflexivity.
    + constructor.
      * apply header_words_matches. now exists w.
      * constructor; [now apply star_class |].
        apply plus_class. simpl. now rewrite H.
Qed.

(** The keep test of [clean_text] is the negation of the discard test of
    the specification. *)
Lemma keep_line_discard (line : str) :
  keep_line line = negb (discard_line line).
Proof.
  unfold keep_line, discard_line.
  rewrite fullmatch_digits, match_header.
  now rewrite !negb_orb.
Qed.

(** ** The longest match and [re.sub] *)

Lemma longest_none (s : str) :
  forall r, re.longest r s = None -> forall m, ~ re.matches r (firstn m s).
Proof.
  induction s as [| c s IH]; intros r; simpl.
  - destruct (re.nullable r) eqn:E; [discriminate |].
    intros _ m H. rewrite firstn_nil in H.
    apply nullable_matches in H. congruence.
  - destruct (re.longest (re.deriv c r) s) eqn:El; [discriminate |].
    destruct (re.nullable r) eqn:E; [discriminate |].
    intros _ [| m] H; simpl in H.
    + apply nullable_matches in H. congruence.
    + apply deriv_matches in H. now apply (IH _ El m).
Qed.

Lemma longest_some (s : str) :
  forall r n,
    re.longest r s = Some n ->
    (n <= List.length s)%nat
    /\ re.matches r (firstn n s)
    /\ forall m, (m <= List.length s)%nat ->
                 re.matches r (firstn m s) -> (m <= n)%nat.
Proof.
  induction s as [| c s IH]; intros r n; simpl.
  - destruct (re.nullable r) eqn:E; [| discriminate].
    intros H. injection H as <-. split; [lia |]. split.
    + now apply nullable_matches.
    + intros m Hm _. assumption.
  - destruct (re.longest (re.deriv c r) s) as [k |] eqn:El.
    + intros H. injection H as <-. destruct (IH _ _ El) as [Hle [Hk Hmax]].
      split; [lia |]. split.
      * simpl. now apply deriv_matches.
      * intros [| m] Hm H; [lia |]. simpl in H. apply deriv_matches in H.
        apply le_n_S. apply Hmax; [lia | assumption].
    + destruct (re.nullable r) eqn:E; [| discriminate].
      intros H. injection H as <-. split; [lia |]. split.
      * simpl. now apply nullable_matches.
      * intros [| m] Hm H; [lia |]. simpl in H. apply deriv_matches in H.
        now apply (longest_none _ _ El) in H.
Qed.

Lemma run_le (p : char -> bool) (s : str) : (run p s <= List.length s)%nat.
Proof.
  induction s as [| c s IH]; simpl; [lia |]. destruct (p c); simpl; lia.
Qed.

Lemma run_firstn (p : char -> bool) (s : str) :
  forallb p (firstn (run p s) s) = true.
Proof.
  induction s as [| c s IH]; simpl; [reflexivity |].
  destruct (p c) eqn:E; simpl; [now rewrite E | reflexivity].
Qed.

Lemma run_max (p : char -> bool) (s : str) :
  forall n, (n <= List.length s)%nat ->
            forallb p (firstn n s) = true -> (n <= run p s)%nat.
Proof.
  induction s as [| c s IH]; intros [| n] Hn H; simpl in *; try lia.
  apply andb_true_iff in H. destruct H as [Hc Hs]. rewrite Hc.
  apply le_n_S. apply IH; [lia | assumption].
Qed.

Lemma null_firstn (s : str) (n : nat) :
  null (firstn n s) = false -> n <> O.
Proof. destruct n; simpl; [discriminate | discriminate]. Qed.

Lemma longest_plus_class (p : char -> bool) (s : str) :
  re.longest (re.Plus (re.Class p)) s =
  match run p s with
  | O => None
  | S n => Some (S n)
  end.
Proof.
  assert (Hrun : run p s <> O ->
                 re.matches (re.Plus (re.Class p)) (firstn (run p s) s)).
  { intros Hr. apply plus_class. rewrite run_firstn, andb_true_r.
    destruct s as [| c s]; simpl in *; [congruence |].
    destruct (p c); simpl; [reflexivity | congruence]. }
  destruct (re.longest (re.Plus (re.Class p)) s) as [n |] eqn:E.
  - destruct (longest_some _ _ _ E) as [Hl [Hn Hmax]].
    apply plus_class in Hn. apply andb_true_iff in Hn.
    destruct Hn as [Hnn Hall].
    apply negb_true_iff in Hnn. apply null_firstn in Hnn.
    assert (Hle : (n <= run p s)%nat) by now apply run_max.
    assert (Hr : run p s <> O) by lia.
    specialize (Hmax (run p s) (run_le p s) (Hrun Hr)).
    assert (En : n = run p s) by lia. rewrite <- En.
    destruct n; [congruence | reflexivity].
  - destruct (run p s) as [| k] eqn:Er; [reflexivity |].
    exfalso. apply (longest_none _ _ E (S k)). apply Hrun. lia.
Qed.

(** [re.sub(r"\s+", " ", s)] collapses every run of whitespace. *)
Lemma sub_spaces_squeeze (s : str) :
  re.sub_from spaces_re [SP] 0 s = squeeze false s
  /\ re.sub_from spaces_re [SP] (run isspace s) s = squeeze true s.
Proof.
  induction s as [| c s [IH0 IHr]]; [now split |].
  assert (H0 : re.sub_from spaces_re [SP] 0 (c :: s) = squeeze false (c :: s)).
  { unfold re.sub_from; fold re.sub_from.
    change (re.longest spaces_re (c :: s))
      with (re.longest (re.Plus (re.Class isspace)) (c :: s)).
    rewrite longest_plus_class. simpl run. simpl squeeze.
    destruct (isspace c) eqn:Ec.
    - rewrite IHr. reflexivity.
    - now rewrite IH0. }
  split; [exact H0 |].
  simpl run. destruct (isspace c) eqn:Ec.
  - simpl. rewrite Ec. exact IHr.
  - rewrite H0. simpl. now rewrite Ec.
Qed.

Lemma sub_spaces (s : str) :
  re.sub spaces_re [SP] s = collapse_whitespace s.
Proof. apply sub_spaces_squeeze. Qed.

(** [clean_text] computes what the specification describes. *)
Lemma clean_text_refines (text : str) :
  clean_text text = clean_text_spec text.
Proof.
  unfold clean_text, clean_text_spec. rewrite sub_spaces. do 2 f_equal.
  apply filter_ext. intros line. apply keep_line_discard.
Qed.

(** ** Trimmed lines *)

Lemma hd_rev_last (s : str) (d : char) : hd d (rev s) = last s d.
Proof.
  induction s as [| c s IH] using rev_ind; [reflexivity |].
  rewrite rev_app_distr, last_last. reflexivity.
Qed.

Lemma last_rev_hd (s : str) (d : char) : last (rev s) d = hd d s.
Proof. rewrite <- hd_rev_last. now rewrite rev_involutive. Qed.

Lemma last_cons_nonempty (c : char) (s : str) (d : char) :
  s <> [] -> last (c :: s) d = last s d.
Proof. destruct s; [congruence | reflexivity]. Qed.

Lemma last_app_nonempty (a b : str) (d : char) :
  b <> [] -> last (a ++ b) d = last b d.
Proof.
  intros Hb. induction a as [| c a IH]; [reflexivity |].
  simpl app. rewrite last_cons_nonempty; [assumption |].
  destruct a; simpl; [assumption | discriminate].
Qed.

Lemma tight_nonempty (s : str) : tight s -> s <> [].
Proof. intros [H _] ->. simpl in H. rewrite isspace_SP in H. discriminate. Qed.

Lemma lstrip_hd (s : str) :
  lstrip s = [] \/ isspace (hd SP (lstrip s)) = false.
Proof.
  destruct (lstrip s) as [| c t] eqn:E; [now left | right].
  simpl. now apply (lstrip_head s c t).
Qed.

Lemma lstrip_tight (s : str) : isspace (hd SP s) = false -> lstrip s = s.
Proof.
  destruct s as [| c s]; simpl; [reflexivity |]. now intros ->.
Qed.

Lemma strip_tight (s : str) : tight s -> strip s = s.
Proof.
  intros [Hh Hl]. unfold strip, rstrip.
  rewrite (lstrip_tight s Hh).
  rewrite lstrip_tight by now rewrite hd_rev_last.
  apply rev_involutive.
Qed.

Lemma strip_nil_or_tight (s : str) : strip s = [] \/ tight (strip s).
Proof.
  unfold strip, rstrip. set (t := lstrip s).
  destruct (lstrip_hd (rev t)) as [E | E].
  - left. now rewrite E.
  - right. split.
    + destruct (lstrip_split (rev t)) as [ws [Et Hws]].
      assert (Ht : t = rev (lstrip (rev t)) ++ rev ws).
      { rewrite <- rev_app_distr, <- Et. symmetry. apply rev_involutive. }
      destruct (rev (lstrip (rev t))) as [| c u] eqn:Eu.
      * apply (f_equal (@rev char)) in Eu. rewrite rev_involutive in Eu.
        simpl in Eu. rewrite Eu in E. simpl in E.
        rewrite isspace_SP in E. discriminate.
      * simpl. destruct (lstrip_hd s) as [F | F]; fold t in F.
        -- rewrite F in Ht. discriminate.
        -- rewrite Ht in F. exact F.
    + now rewrite last_rev_hd.
Qed.

Lemma tight_join (l : str) (ls : list str) :
  tight l -> Forall tight ls -> tight (join [SP] (l :: ls)).
Proof.
  revert l. induction ls as [| l' ls IH]; intros l Hl Hls; [exact Hl |].
  inversion Hls as [| ? ? Hl' Hls']; subst.
  specialize (IH l' Hl' Hls').
  change (join [SP] (l :: l' :: ls)) with (l ++ [SP] ++ join [SP] (l' :: ls)).
  split.
  - destruct l as [| c l]; [now apply tight_nonempty in Hl |]. apply Hl.
  - rewrite last_app_nonempty by discriminate.
    rewrite last_app_nonempty by now apply tight_nonempty.
    apply IH.
Qed.

(** ** Collapsed whitespace *)

Lemma squeeze_last (s : str) :
  forall b, isspace (last s SP) = false ->
            last (squeeze b s) SP = last s SP.
Proof.
  induction s as [| c s IH]; intros b H; [reflexivity |].
  destruct s as [| c' s'].
  - simpl in H. simpl. now rewrite H.
  - assert (H' : isspace (last (c' :: s') SP) = false) by exact H.
    assert (Hne : forall b', squeeze b' (c' :: s') <> []).
    { intros b' E. specialize (IH b' H'). rewrite E in IH.
      change (last [] SP) with SP in IH.
      rewrite <- IH in H'. rewrite isspace_SP in H'. discriminate. }
    change (last (c :: c' :: s') SP) with (last (c' :: s') SP).
    change (squeeze b (c :: c' :: s'))
      with (if isspace c
            then if b then squeeze true (c' :: s')
                 else SP :: squeeze true (c' :: s')
            else c :: squeeze false (c' :: s')).
    destruct (isspace c); [destruct b |].
    + now apply IH.
    + rewrite last_cons_nonempty by apply Hne. now apply IH.
    + rewrite last_cons_nonempty by apply Hne. now apply IH.
Qed.

Lemma tight_squeeze (s : str) : tight s -> tight (squeeze false s).
Proof.
  intros [Hh Hl]. split.
  - destruct s as [| c s]; [exact Hh |]. simpl in *. now rewrite Hh.
  - now rewrite squeeze_last.
Qed.

Lemma squeeze_idem (s : str) :
  squeeze false (squeeze false s) = squeeze false s
  /\ squeeze true (squeeze true s) = squeeze true s.
Proof.
  induction s as [| c s [IHf IHt]]; [now split |].
  cbn [squeeze]. destruct (isspace c) eqn:Ec.
  - cbn [squeeze]. rewrite isspace_SP, IHt. now split.
  - cbn [squeeze]. rewrite Ec, IHf. now split.
Qed.

Lemma squeeze_space_only (s : str) :
  forall b c, In c (squeeze b s) -> isspace c = true -> c = SP.
Proof.
  induction s as [| a s IH]; intros b c; simpl; [contradiction |].
  destruct (isspace a) eqn:Ea.
  - destruct b.
    + apply IH.
    + intros [<- | H] Hc; [reflexivity | now apply (IH true)].
  - intros [<- | H] Hc; [congruence | now apply (IH false)].
Qed.

Lemma squeeze_without_space (s : str) :
  forallb (fun c => negb (isspace c)) (squeeze false s) = true ->
  squeeze false s = s.
Proof.
  induction s as [| c s IH]; [reflexivity |].
  cbn [squeeze]. destruct (isspace c) eqn:Ec; cbn [forallb].
  - rewrite isspace_SP. discriminate.
  - rewrite Ec. cbn [negb andb]. intros H. now rewrite IH.
Qed.

Lemma double_space_eq (a b : char) (t : str) :
  double_space (a :: b :: t) =
  ((a =? SP) && (b =? SP)) || double_space (b :: t).
Proof. reflexivity. Qed.

Lemma double_space_cons (c : char) (s : str) :
  (c =? SP) = false -> double_space (c :: s) = double_space s.
Proof.
  intros H. destruct s as [| b s]; [reflexivity |].
  now rewrite double_space_eq, H.
Qed.

Lemma double_space_after (c : char) (s : str) :
  (c =? SP) = false -> double_space (SP :: c :: s) = double_space (c :: s).
Proof.
  intros H. now rewrite double_space_eq, H, andb_false_r.
Qed.

Lemma not_space_neq_SP (c : char) : isspace c = false -> (c =? SP) = false.
Proof.
  intros H. apply N.eqb_neq. intros ->. rewrite isspace_SP in H. discriminate.
Qed.

Lemma squeeze_double_space (s : str) :
  double_space (squeeze false s) = false
  /\ double_space (SP :: squeeze true s) = false.
Proof.
  induction s as [| c s [IHf IHt]]; [now split |].
  simpl squeeze. destruct (isspace c) eqn:Ec.
  - now split.
  - pose proof (not_space_neq_SP c Ec) as Hc.
    rewrite double_space_after by assumption.
    rewrite double_space_cons by assumption. now split.
Qed.

(** ** The Text Cleaner *)

Lemma split_no_newline (s : str) : ~ In NL s -> split [NL] s = [s].
Proof.
  unfold split. induction s as [| c s IH]; intros H; [reflexivity |].
  cbn [split_from startswith].
  assert (Hc : (NL =? c) = false).
  { apply N.eqb_neq. intros E. apply H. now left. }
  rewrite Hc. cbn [andb]. rewrite IH; [reflexivity |].
  intros Hin. apply H. now right.
Qed.

Lemma keep_line_nil : keep_line [] = false.
Proof. reflexivity. Qed.

Lemma kept_lines_tight (parts : list str) :
  Forall tight (filter keep_line (map strip parts)).
Proof.
  induction parts as [| a parts IH]; simpl; [constructor |].
  destruct (keep_line (strip a)) eqn:E; [| assumption].
  constructor; [| assumption].
  destruct (strip_nil_or_tight a) as [F | F]; [| assumption].
  rewrite F, keep_line_nil in E. discriminate.
Qed.

Lemma kept_lines_kept (parts : list str) :
  Forall (fun line => keep_line line = true)
    (filter keep_line (map strip parts)).
Proof.
  apply Forall_forall. intros line H. now apply filter_In in H.
Qed.

Lemma digits_no_space (s : str) :
  forallb isdecimal s = true ->
  forallb (fun c => negb (isspace c)) s = true.
Proof.
  induction s as [| c s IH]; simpl; [reflexivity |].
  intros H. apply andb_true_iff in H. destruct H as [Hc Hs].
  now rewrite (decimal_not_space c Hc), IH.
Qed.

Lemma joined_not_digits (l : str) (ls : list str) :
  tight l -> keep_line l = true ->
  forallb isdecimal (join [SP] (l :: ls)) = false.
Proof.
  intros Tl Hl. destruct ls as [| l' ls].
  - rewrite keep_line_discard in Hl. apply negb_true_iff in Hl.
    unfold discard_line in Hl. apply orb_false_iff in Hl.
    destruct Hl as [Hl _]. apply orb_false_iff in Hl. destruct Hl as [_ Hl].
    unfold all_digits in Hl. apply tight_nonempty in Tl.
    destruct l as [| c l]; [congruence |]. exact Hl.
  - change (join [SP] (l :: l' :: ls))
      with (l ++ SP :: join [SP] (l' :: ls)).
    rewrite forallb_app. cbn [forallb].
    change (isdecimal SP) with false. cbn [andb]. apply andb_false_r.
Qed.

(** The shape of every cleaned text: empty, or a string without
    whitespace at its ends which is not a line of digits; its only
    whitespace characters are single spaces. *)
Lemma clean_text_shape (text : str) :
  clean_text text = []
  \/ (tight (clean_text text) /\ all_digits (clean_text text) = false).
Proof.
  unfold clean_text. rewrite sub_spaces. unfold collapse_whitespace.
  set (ls := filter keep_line (map strip (split [NL] text))).
  pose proof (kept_lines_tight (split [NL] text)) as Ht.
  pose proof (kept_lines_kept (split [NL] text)) as Hk.
  fold ls in Ht, Hk.
  destruct ls as [| l ls]; [now left | right].
  inversion Ht as [| ? ? Tl Tls]; subst.
  split.
  - apply tight_squeeze. now apply tight_join.
  - unfold all_digits.
    destruct (forallb isdecimal (squeeze false (join [SP] (l :: ls)))) eqn:E;
      [| now rewrite andb_false_r].
    pose proof (squeeze_without_space _ (digits_no_space _ E)) as Es.
    rewrite Es in E. rewrite joined_not_digits in E; [discriminate | |].
    + assumption.
    + now inversion Hk.
Qed.

Lemma clean_text_no_newline (text : str) : ~ In NL (clean_text text).
Proof.
  unfold clean_text. rewrite sub_spaces. intros H.
  apply squeeze_space_only in H; [discriminate | reflexivity].
Qed.

Lemma clean_text_collapsed (text : str) :
  collapse_whitespace (clean_text text) = clean_text text.
Proof.
  unfold clean_text. rewrite sub_spaces. apply squeeze_idem.
Qed.

(** C1 (as stated, refuted): a heading word at the end of one line and a
    number at the start of the next survive the first cleaning as one line
    "Chapter 3 covers heat.", which the second cleaning discards as a
    header line. *)
Lemma clean_text_not_idempotent :
  clean_text chapter_line_break = py "Chapter 3 covers heat."
  /\ clean_text (clean_text chapter_line_break) = []
  /\ clean_text (clean_text chapter_line_break)
     <> clean_text chapter_line_break.
Proof. vm_compute. repeat split; discriminate. Qed.

(** C1 (amended): cleaning a cleaned text returns it unchanged, unless the
    cleaned text itself matches the header pattern at its start, in which
    case the second cleaning returns the empty string. *)
Theorem clean_text_twice (text : str) :
  clean_text (clean_text text) =
  if re.re_match header_re (clean_text text) then [] else clean_text text.
Proof.
  pose proof (clean_text_collapsed text) as Hc.
  pose proof (clean_text_no_newline text) as Hn.
  destruct (clean_text_shape text) as [E | [Ht Hd]].
  - rewrite E. reflexivity.
  - set (out := clean_text text) in *.
    unfold clean_text at 1. rewrite (split_no_newline out Hn).
    cbn [map]. rewrite (strip_tight out Ht). cbn [filter].
    rewrite keep_line_discard. unfold discard_line.
    rewrite Hd, match_header.
    assert (Hne : null out = false).
    { apply tight_nonempty in Ht. destruct out; [congruence | reflexivity]. }
    rewrite Hne. cbn [orb].
    destruct (header_line out); cbn [negb join].
    + reflexivity.
    + rewrite sub_spaces. exact Hc.
Qed.

(** C2: [clean_text] splits at newlines, trims each line, discards exactly
    the lines that are empty, all digits, or start with Page, Chapter or
    Section (any letter case), optional whitespace and a digit, joins the
    rest with one space and collapses every run of whitespace; and the
    page of the scenario is cleaned to
    "Introduction to Thermodynamics Heat is energy.". *)
Theorem clean_text_algorithm :
  (forall text,
     clean_text text =
     collapse_whitespace
       (join [SP]
          (filter
             (fun line =>
                negb (null line || all_digits line || header_line line))
             (map strip (split [NL] text)))))
  /\ clean_text example_page
     = py "Introduction to Thermodynamics Heat is energy.".
Proof.
  split; [exact clean_text_refines |].
  vm_compute. reflexivity.
Qed.

(** C5: when every trimmed line is empty, all digits, or a header line,
    [clean_text] returns the empty string; "Chapter IV" is not such a line
    and survives. *)
Theorem clean_text_only_artifacts (text : str) :
  forallb (fun line => discard_line (strip line)) (split [NL] text) = true ->
  clean_text text = []
  /\ discard_line (strip (py "Chapter IV")) = false
  /\ clean_text (py "Chapter IV") = py "Chapter IV".
Proof.
  intros H. split; [| split; vm_compute; reflexivity].
  rewrite clean_text_refines. unfold clean_text_spec.
  assert (E : filter (fun line => negb (discard_line line))
                (map strip (split [NL] text)) = []).
  { induction (split [NL] text) as [| a ps IH]; [reflexivity |].
    simpl in H. apply andb_true_iff in H. destruct H as [Ha Hps].
    simpl. rewrite Ha. simpl. now apply IH. }
  rewrite E. reflexivity.
Qed.

Lemma clean_text_only_artifacts_witness :
  forallb (fun line => discard_line (strip line))
    (split [NL] artifact_page) = true
  /\ clean_text artifact_page = [].
Proof.
  split.
  - vm_compute. reflexivity.
  - apply (clean_text_only_artifacts artifact_page). vm_compute. reflexivity.
Defined.

(** C6: the output of [clean_text] is the kept lines, joined, with every
    run of whitespace replaced by one space: it never has two neighbouring
    spaces, and a space is the only whitespace character left in it. *)
Theorem clean_text_no_double_space (text : str) :
  clean_text text
  = collapse_whitespace
      (join [SP] (filter keep_line (map strip (split [NL] text))))
  /\ double_space (clean_text text) = false
  /\ forallb (fun c => negb (isspace c) || (c =? SP)) (clean_text text)
     = true.
Proof.
  assert (E : clean_text text
              = squeeze false
                  (join [SP] (filter keep_line (map strip (split [NL] text))))).
  { unfold clean_text. now rewrite sub_spaces. }
  split; [exact E |]. rewrite E. split.
  - apply squeeze_double_space.
  - apply forallb_forall. intros c Hc.
    destruct (isspace c) eqn:Ec; [| reflexivity].
    rewrite (squeeze_space_only _ _ _ Hc Ec). reflexivity.
Qed.

(** ** Prefixes, occurrences, split and replace *)

Lemma startswith_app (p t : str) : startswith (p ++ t) p = true.
Proof.
  induction p as [| a p IH]; [reflexivity |].
  simpl. now rewrite N.eqb_refl.
Qed.

Lemma startswith_prefix (p : str) :
  forall s, startswith s p = true <-> exists t, s = p ++ t.
Proof.
  induction p as [| a p IH]; intros s; simpl.
  - split; [intros _; now exists s | reflexivity].
  - destruct s as [| b s].
    + split; [discriminate | intros [t H]; discriminate].
    + rewrite andb_true_iff, N.eqb_eq, IH. split.
      * intros [-> [t ->]]. now exists t.
      * intros [t H]. injection H as -> ->. split; [reflexivity | now exists t].
Qed.

Lemma contains_eq (sub s : str) :
  contains sub s =
  startswith s sub || match s with [] => false | _ :: s' => contains sub s' end.
Proof. destruct s; reflexivity. Qed.

Lemma contains_occurrence (sub s : str) :
  contains sub s = true <-> exists a b, s = a ++ sub ++ b.
Proof.
  split.
  - induction s as [| c s IH]; rewrite contains_eq; intros H;
      apply orb_true_iff in H; destruct H as [H | H].
    + apply startswith_prefix in H. destruct H as [t H]. now exists [], t.
    + discriminate.
    + apply startswith_prefix in H. destruct H as [t H]. now exists [], t.
    + destruct (IH H) as [a [b ->]]. now exists (c :: a), b.
  - intros [a [b ->]]. induction a as [| c a IH]; simpl app.
    + rewrite contains_eq. now rewrite startswith_app.
    + change (contains sub (c :: a ++ sub ++ b))
        with (startswith (c :: a ++ sub ++ b) sub
              || contains sub (a ++ sub ++ b)).
      rewrite IH. apply orb_true_r.
Qed.

Lemma contains_app_l (sub x y : str) :
  contains sub (x ++ y) = false -> contains sub x = false.
Proof.
  intros H. destruct (contains sub x) eqn:E; [| reflexivity].
  apply contains_occurrence in E. destruct E as [a [b ->]].
  rewrite <- H. symmetry. apply contains_occurrence.
  exists a, (b ++ y). now rewrite <- !app_assoc.
Qed.

Lemma contains_app_r (sub x y : str) :
  contains sub (x ++ y) = false -> contains sub y = false.
Proof.
  intros H. destruct (contains sub y) eqn:E; [| reflexivity].
  apply contains_occurrence in E. destruct E as [a [b ->]].
  rewrite <- H. symmetry. apply contains_occurrence.
  exists (x ++ a), b. now rewrite <- !app_assoc.
Qed.

Lemma replace_skip (old new x t : str) :
  replace_from old new (List.length x) (x ++ t) = replace_from old new 0 t.
Proof. induction x as [| c x IH]; [reflexivity | exact IH]. Qed.

Lemma replace_prefix (a : char) (old new t : str) :
  replace (a :: old) new ((a :: old) ++ t) = new ++ replace (a :: old) new t.
Proof.
  unfold replace.
  change (replace_from (a :: old) new 0 ((a :: old) ++ t))
    with (if startswith ((a :: old) ++ t) (a :: old)
          then new ++ replace_from (a :: old) new (List.length old) (old ++ t)
          else a :: replace_from (a :: old) new 0 (old ++ t)).
  now rewrite startswith_app, replace_skip.
Qed.

Lemma replace_absent (old new t : str) :
  contains old t = false -> replace old new t = t.
Proof.
  unfold replace. induction t as [| c t IH]; [reflexivity |].
  rewrite contains_eq. intros H. apply orb_false_iff in H.
  destruct H as [H1 H2]. cbn [replace_from]. rewrite H1. now rewrite IH.
Qed.

Lemma split_skip (sep x t : str) :
  split_from sep (List.length x) (x ++ t) = split_from sep 0 t.
Proof. induction x as [| c x IH]; [reflexivity | exact IH]. Qed.

Lemma split_prefix (a : char) (sep t : str) :
  split (a :: sep) ((a :: sep) ++ t) = [] :: split (a :: sep) t.
Proof.
  unfold split.
  change (split_from (a :: sep) 0 ((a :: sep) ++ t))
    with (if startswith ((a :: sep) ++ t) (a :: sep)
          then [] :: split_from (a :: sep) (List.length sep) (sep ++ t)
          else cons_first a (split_from (a :: sep) 0 (sep ++ t))).
  now rewrite startswith_app, split_skip.
Qed.

Lemma split_absent (sep t : str) :
  contains sep t = false -> split sep t = [t].
Proof.
  unfold split. induction t as [| c t IH]; [reflexivity |].
  rewrite contains_eq. intros H. apply orb_false_iff in H.
  destruct H as [H1 H2]. cbn [split_from]. rewrite H1. now rewrite IH.
Qed.

Lemma split_cons (sep : str) (c : char) (t : str) :
  startswith (c :: t) sep = false ->
  split sep (c :: t) = cons_first c (split sep t).
Proof. unfold split. cbn [split_from]. now intros ->. Qed.

(** ** Trimming in the middle of a string *)

Lemma forallb_rev (p : char -> bool) (s : str) :
  forallb p (rev s) = forallb p s.
Proof.
  apply eq_true_iff_eq. rewrite !forallb_forall. split; intros H x Hx.
  - apply H. now apply in_rev in Hx.
  - apply H. now apply in_rev.
Qed.

Lemma hd_app_nonempty (a b : str) (d : char) :
  a <> [] -> hd d (a ++ b) = hd d a.
Proof. destruct a; [congruence | reflexivity]. Qed.

Lemma strip_sandwich (a x c : str) :
  forallb isspace a = true -> forallb isspace c = true -> tight x ->
  strip (a ++ x ++ c) = x.
Proof.
  intros Ha Hc Hx. pose proof (tight_nonempty x Hx) as Hne.
  destruct Hx as [Hh Hl]. unfold strip, rstrip.
  rewrite lstrip_spaces by assumption.
  rewrite (lstrip_tight (x ++ c)) by now rewrite hd_app_nonempty.
  rewrite rev_app_distr, lstrip_spaces by now rewrite forallb_rev.
  rewrite (lstrip_tight (rev x)) by now rewrite hd_rev_last.
  apply rev_involutive.
Qed.

Lemma strip_decompose (b : str) :
  exists w1 w2, b = w1 ++ strip b ++ w2
                /\ forallb isspace w1 = true /\ forallb isspace w2 = true.
Proof.
  destruct (lstrip_split b) as [w1 [E1 H1]].
  destruct (lstrip_split (rev (lstrip b))) as [w [E2 H2]].
  exists w1, (rev w). split; [| split].
  - rewrite E1 at 1. f_equal. unfold strip, rstrip.
    rewrite <- rev_app_distr, <- E2. symmetry. apply rev_involutive.
  - assumption.
  - now rewrite forallb_rev.
Qed.

Lemma strip_blank_or_tight (b : str) :
  null (strip b) = false -> tight (strip b).
Proof.
  intros H. destruct (strip_nil_or_tight b) as [E | E]; [| assumption].
  rewrite E in H. discriminate.
Qed.

(** The body that [classify] takes from a part: whitespace, the label, and
    a body that is not blank and does not repeat the label. *)
Lemma body_extracted (lbl ws b : str) :
  forallb isspace ws = true -> isspace (hd SP lbl) = false ->
  plain_body lbl b = true ->
  exists rest,
    strip (ws ++ lbl ++ b) = lbl ++ rest
    /\ strip (replace lbl [] (lbl ++ rest)) = strip b.
Proof.
  intros Hws Ha Hb. unfold plain_body in Hb.
  apply andb_true_iff in Hb. destruct Hb as [Hnb Hnl].
  apply negb_true_iff in Hnb, Hnl.
  pose proof (strip_blank_or_tight b Hnb) as Ht.
  destruct (strip_decompose b) as [w1 [w2 [Eb [H1 H2]]]].
  destruct lbl as [| a lbl]; [discriminate Ha |].
  exists (w1 ++ strip b). split.
  - rewrite Eb at 1.
    replace (ws ++ (a :: lbl) ++ w1 ++ strip b ++ w2)
      with (ws ++ ((a :: lbl) ++ w1 ++ strip b) ++ w2)
      by now rewrite <- !app_assoc.
    apply strip_sandwich; try assumption. split.
    + exact Ha.
    + rewrite !last_app_nonempty; [apply Ht | | ]; try now apply tight_nonempty.
      destruct w1; simpl; [now apply tight_nonempty | discriminate].
  - rewrite replace_prefix. cbn [app]. rewrite replace_absent.
    + replace (w1 ++ strip b) with (w1 ++ strip b ++ [])
        by now rewrite app_nil_r.
      now apply strip_sandwich.
    + apply (contains_app_l _ _ w2). rewrite <- app_assoc. now rewrite <- Eb.
Qed.

(** ** The delimiter *)

Lemma endswith_cons (c h : char) (x : str) :
  x <> [] -> endswith (c :: x) [h] = endswith x [h].
Proof.
  intros Hx. unfold endswith. cbn [rev app].
  destruct (rev x) as [| d y] eqn:E.
  - apply (f_equal (@rev char)) in E. rewrite rev_involutive in E.
    simpl in E. congruence.
  - reflexivity.
Qed.

Lemma endswith_app (a b : str) (h : char) :
  b <> [] -> endswith (a ++ b) [h] = endswith b [h].
Proof.
  intros Hb. induction a as [| c a IH]; [reflexivity |].
  cbn [app]. rewrite endswith_cons; [assumption |].
  destruct a; simpl; [assumption | discriminate].
Qed.

Lemma delimiter_free_cons (c : char) (x : str) :
  delimiter_free (c :: x) = true -> delimiter_free x = true.
Proof.
  unfold delimiter_free. rewrite contains_eq.
  intros H. apply andb_true_iff in H. destruct H as [H1 H2].
  apply negb_true_iff in H1. apply orb_false_iff in H1. destruct H1 as [_ H1].
  rewrite H1. cbn [negb andb].
  destruct x as [| d x]; [reflexivity |].
  now rewrite endswith_cons in H2 by discriminate.
Qed.

Lemma delimiter_free_head (c : char) (x rest : str) :
  delimiter_free (c :: x) = true ->
  startswith ((c :: x) ++ DELIMITER ++ rest) DELIMITER = false.
Proof.
  unfold delimiter_free. intros H. apply andb_true_iff in H.
  destruct H as [H1 H2]. apply negb_true_iff in H1, H2.
  rewrite contains_eq in H1. apply orb_false_iff in H1. destruct H1 as [H1 _].
  change DELIMITER with [HASH; HASH; HASH] in *.
  destruct (N.eqb_spec HASH c) as [<- | Hc];
    [| cbn [app startswith]; apply N.eqb_neq in Hc; now rewrite Hc].
  destruct x as [| d x]; [discriminate H2 |].
  destruct (N.eqb_spec HASH d) as [<- | Hd];
    [| cbn [app startswith]; apply N.eqb_neq in Hd;
       now rewrite Hd, andb_false_r].
  destruct x as [| e x]; [discriminate H2 |].
  destruct (N.eqb_spec HASH e) as [<- | He];
    [| cbn [app startswith]; apply N.eqb_neq in He;
       now rewrite He, !andb_false_r].
  discriminate H1.
Qed.

Lemma split_at_delimiter (x rest : str) :
  delimiter_free x = true ->
  split DELIMITER (x ++ DELIMITER ++ rest) = x :: split DELIMITER rest.
Proof.
  induction x as [| c x IH]; intros H.
  - cbn [app]. change DELIMITER with (HASH :: [HASH; HASH]).
    apply split_prefix.
  - cbn [app]. rewrite split_cons.
    + rewrite IH by now apply delimiter_free_cons in H. reflexivity.
    + exact (delimiter_free_head c x rest H).
Qed.

Lemma no_hash_contains (a b : str) :
  forallb (fun c => negb (c =? HASH)) a = true ->
  contains DELIMITER (a ++ b) = contains DELIMITER b.
Proof.
  induction a as [| c a IH]; [reflexivity |].
  cbn [forallb app]. intros H. apply andb_true_iff in H. destruct H as [Hc Ha].
  rewrite contains_eq, IH by assumption.
  apply negb_true_iff in Hc. rewrite N.eqb_sym in Hc.
  change DELIMITER with [HASH; HASH; HASH] at 1.
  cbn [startswith]. now rewrite Hc.
Qed.

Lemma spaces_no_hash (ws : str) :
  forallb isspace ws = true ->
  forallb (fun c => negb (c =? HASH)) ws = true.
Proof.
  induction ws as [| c ws IH]; [reflexivity |].
  cbn [forallb]. intros H. apply andb_true_iff in H. destruct H as [Hc Hws].
  rewrite IH by assumption. rewrite andb_true_r.
  apply negb_true_iff. apply N.eqb_neq. intros ->. discriminate Hc.
Qed.

Lemma part_delimiter_free (ws lbl b : str) :
  forallb isspace ws = true ->
  forallb (fun c => negb (c =? HASH)) lbl = true ->
  null (strip b) = false ->
  delimiter_free b = true ->
  delimiter_free (ws ++ lbl ++ b) = true.
Proof.
  intros Hws Hl Hb Hd. unfold delimiter_free in *.
  assert (Hne : b <> []) by (intros ->; discriminate Hb).
  rewrite !no_hash_contains by (assumption || now apply spaces_no_hash).
  rewrite app_assoc, endswith_app by assumption. exact Hd.
Qed.

(** ** The loop over the parts *)

Lemma label_not_space (h : heading) : isspace (hd SP (label h)) = false.
Proof. destruct h; reflexivity. Qed.

Lemma label_no_hash (h : heading) :
  forallb (fun c => negb (c =? HASH)) (label h) = true.
Proof. destruct h; reflexivity. Qed.

Lemma startswith_hd (p lbl : str) :
  lbl <> [] -> startswith p lbl = true -> hd 0 p = hd 0 lbl.
Proof.
  destruct lbl as [| a lbl]; [congruence |]. intros _.
  destruct p as [| c p]; simpl; [discriminate |].
  intros H. apply andb_true_iff in H. destruct H as [H _].
  apply N.eqb_eq in H. now subst.
Qed.

Lemma labels_exclusive (h h' : heading) (p : str) :
  startswith p (label h) = true -> startswith p (label h') = true -> h = h'.
Proof.
  intros H H'.
  apply startswith_hd in H; [| destruct h; discriminate].
  apply startswith_hd in H'; [| destruct h'; discriminate].
  rewrite H in H'. destruct h, h'; try reflexivity; discriminate H'.
Qed.

(** One turn of the loop sets the field of the heading the part starts
    with, and no other. *)
Lemma classify_field (h : heading) (r : Sections) (part : str) :
  field h (classify r part) =
  if startswith (strip part) (label h)
  then strip (replace (label h) [] (strip part))
  else field h r.
Proof.
  unfold classify. cbv zeta.
  destruct (startswith (strip part) SHORT_NOTES) eqn:E1.
  { destruct h; cbn [field label short_notes bullet_points exam_summary].
    - now rewrite E1.
    - destruct (startswith (strip part) BULLET_POINTS) eqn:E2; [| reflexivity].
      discriminate (labels_exclusive ShortNotes BulletPoints _ E1 E2).
    - destruct (startswith (strip part) EXAM_SUMMARY) eqn:E3; [| reflexivity].
      discriminate (labels_exclusive ShortNotes ExamSummary _ E1 E3). }
  destruct (startswith (strip part) BULLET_POINTS) eqn:E2.
  { destruct h; cbn [field label short_notes bullet_points exam_summary].
    - now rewrite E1.
    - now rewrite E2.
    - destruct (startswith (strip part) EXAM_SUMMARY) eqn:E3; [| reflexivity].
      discriminate (labels_exclusive BulletPoints ExamSummary _ E2 E3). }
  destruct (startswith (strip part) EXAM_SUMMARY) eqn:E3.
  { destruct h; cbn [field label short_notes bullet_points exam_summary].
    - now rewrite E1.
    - now rewrite E2.
    - now rewrite E3. }
  destruct h; cbn [label]; now rewrite ?E1, ?E2, ?E3.
Qed.

Lemma sections_eq (r r' : Sections) :
  (forall h, field h r = field h r') -> r = r'.
Proof.
  intros H. destruct r, r'.
  pose proof (H ShortNotes) as H1. pose proof (H BulletPoints) as H2.
  pose proof (H ExamSummary) as H3. simpl in *. now subst.
Qed.

Lemma field_with_field (h h' : heading) (v : str) (r : Sections) :
  field h' (with_field h v r) = if
    match h, h' with
    | ShortNotes, ShortNotes | BulletPoints, BulletPoints
    | ExamSummary, ExamSummary => true
    | _, _ => false
    end then v else field h' r.
Proof. destruct h, h'; reflexivity. Qed.

(** A well-formed part sets its own field to the trimmed body. *)
Lemma classify_block (h : heading) (r : Sections) (ws b : str) :
  forallb isspace ws = true ->
  plain_body (label h) b = true ->
  classify r (ws ++ label h ++ b) = with_field h (strip b) r.
Proof.
  intros Hws Hb.
  destruct (body_extracted (label h) ws b Hws (label_not_space h) Hb)
    as [rest [E1 E2]].
  apply sections_eq. intros h'. rewrite classify_field, E1, field_with_field.
  destruct (startswith (label h ++ rest) (label h')) eqn:E.
  - rewrite (labels_exclusive h' h _ E (startswith_app _ _)) in *.
    rewrite E2. now destruct h.
  - destruct h, h'; try reflexivity; now rewrite startswith_app in E.
Qed.

Lemma last_part_with_snoc (lbl : str) (parts : list str) (x : str) :
  last_part_with lbl (parts ++ [x]) =
  if startswith (strip x) lbl then Some (strip x)
  else last_part_with lbl parts.
Proof.
  unfold last_part_with. rewrite map_app, rev_app_distr. reflexivity.
Qed.

Lemma fold_field (h : heading) (parts : list str) :
  forall r,
    field h (fold_left classify parts r) =
    match last_part_with (label h) parts with
    | Some part => strip (replace (label h) [] part)
    | None => field h r
    end.
Proof.
  induction parts as [| x parts IH] using rev_ind; intros r; [reflexivity |].
  rewrite fold_left_app. cbn [fold_left].
  rewrite classify_field, last_part_with_snoc.
  destruct (startswith (strip x) (label h)); [reflexivity | apply IH].
Qed.

(** Every field is what the last part with its label holds. *)
Lemma parse_field (h : heading) (output : str) :
  field h (parse_sections output) =
  section_of (label h) (split DELIMITER output).
Proof.
  unfold parse_sections, section_of. rewrite fold_field.
  destruct (last_part_with (label h) (split DELIMITER output));
    [reflexivity | now destruct h].
Qed.

Lemma find_all_false {A : Type} (f : A -> bool) (l : list A) :
  (forall x, In x l -> f x = false) -> find f l = None.
Proof.
  induction l as [| a l IH]; intros H; [reflexivity |].
  simpl. rewrite (H a) by now left. apply IH. intros x Hx. apply H. now right.
Qed.

Lemma no_part_starts (lbl : str) (parts : list str) :
  existsb (fun part => startswith (strip part) lbl) parts = false ->
  last_part_with lbl parts = None.
Proof.
  intros H. unfold last_part_with. apply find_all_false.
  intros x Hx. apply in_rev in Hx. apply in_map_iff in Hx.
  destruct Hx as [part [<- Hp]].
  destruct (startswith (strip part) lbl) eqn:E; [| reflexivity].
  rewrite <- H. symmetry. apply existsb_exists. now exists part.
Qed.

(** ** The parts of a response are pieces of it *)

Lemma split_first_prefix (sep s : str) :
  exists q qs b, split_from sep 0 s = q :: qs /\ s = q ++ b.
Proof.
  induction s as [| c s [q [qs [b [E Es]]]]].
  - now exists [], [], [].
  - cbn [split_from]. destruct (startswith (c :: s) sep).
    + now exists [], (split_from sep (Nat.pred (List.length sep)) s), (c :: s).
    + rewrite E. exists (c :: q), qs, b. now rewrite Es at 1.
Qed.

Lemma split_parts_occur (sep s : str) :
  forall k p, In p (split_from sep k s) -> exists a b, s = a ++ p ++ b.
Proof.
  induction s as [| c s IH]; intros k p.
  - simpl. intros [<- | []]. now exists [], [].
  - cbn [split_from]. destruct k as [| k].
    + destruct (startswith (c :: s) sep).
      * intros [<- | H]; [now exists [], (c :: s) |].
        destruct (IH _ _ H) as [a [b ->]]. now exists (c :: a), b.
      * destruct (split_first_prefix sep s) as [q [qs [b [E Es]]]].
        assert (Hq : forall p', In p' qs -> In p' (split_from sep 0 s)).
        { intros p' Hp'. rewrite E. now right. }
        rewrite E. intros [<- | H].
        -- exists [], b. now rewrite Es at 1.
        -- destruct (IH _ _ (Hq _ H)) as [a [b' ->]]. now exists (c :: a), b'.
    + intros H. destruct (IH _ _ H) as [a [b ->]]. now exists (c :: a), b.
Qed.

Lemma absent_not_found (lbl output : str) :
  contains lbl output = false ->
  existsb (fun part => startswith (strip part) lbl)
    (split DELIMITER output) = false.
Proof.
  intros H.
  destruct (existsb (fun part => startswith (strip part) lbl)
              (split DELIMITER output)) eqn:E; [| reflexivity].
  apply existsb_exists in E. destruct E as [part [Hin Hs]].
  apply split_parts_occur in Hin. destruct Hin as [a [b Eo]].
  apply startswith_prefix in Hs. destruct Hs as [t Et].
  destruct (strip_decompose part) as [w1 [w2 [Ep _]]].
  rewrite <- H. symmetry. apply contains_occurrence.
  exists (a ++ w1), (t ++ w2 ++ b).
  rewrite Eo, Ep, Et. now rewrite <- !app_assoc.
Qed.

(** ** The Notes Generator *)

Lemma generate_notes_parses (generate_content : str -> option str)
    (text difficulty : str) :
  generate_notes generate_content text difficulty =
  parse_sections (response_text generate_content text difficulty).
Proof. reflexivity. Qed.

(** C3 (as stated, refuted): the body of the first section holds a
    subheading "#### Detail"; every heading is introduced by the delimiter
    and has a nonempty body, but [short_notes] is cut at the subheading. *)
Lemma generate_notes_subheading :
  let notes := generate_notes (fun _ => Some subheading_response) [] [] in
  subheading_body <> []
  /\ short_notes notes = py "alpha"
  /\ short_notes notes <> strip subheading_body.
Proof. vm_compute. repeat split; discriminate. Qed.

(** A blank body leaves its field empty, and a body that repeats its
    label loses every occurrence of it. *)
Example generate_notes_blank_and_repeated :
  short_notes
    (parse_sections
       (block [SP] SHORT_NOTES [NL]
        ++ block [SP] BULLET_POINTS (py " x")
        ++ block [SP] EXAM_SUMMARY (py " y"))) = []
  /\ short_notes
       (parse_sections
          (block [SP] SHORT_NOTES (py " These Short Notes are short")
           ++ block [SP] BULLET_POINTS (py " x")
           ++ block [SP] EXAM_SUMMARY (py " y"))) = py "These  are short".
Proof. vm_compute. split; reflexivity. Qed.

(** C4: the parser is a total function of the response; a heading that is
    not found, because the response omits its label entirely or because no
    trimmed part starts with it, leaves its field empty, and every field
    holds what the last part with its label holds: without "Bullet Points"
    [bullet_points] is empty while [short_notes] and [exam_summary] are
    taken from their headings. *)
Theorem generate_notes_missing_heading
    (generate_content : str -> option str) (text difficulty : str)
    (h : heading) :
  let output := response_text generate_content text difficulty in
  let notes := generate_notes generate_content text difficulty in
  contains (label h) output = false
  \/ existsb (fun part => startswith (strip part) (label h))
       (split DELIMITER output) = false ->
  field h notes = []
  /\ forall h', field h' notes = section_of (label h') (split DELIMITER output).
Proof.
  intros output notes H.
  assert (Hf : forall h', field h' notes
                          = section_of (label h') (split DELIMITER output)).
  { intros h'. unfold notes. rewrite generate_notes_parses. apply parse_field. }
  split; [| exact Hf].
  rewrite Hf. unfold section_of. rewrite no_part_starts; [reflexivity |].
  destruct H as [H | H]; [now apply absent_not_found | exact H].
Qed.

Lemma generate_notes_missing_heading_witness :
  let notes := generate_notes (fun _ => Some no_bullets_response) [] [] in
  contains BULLET_POINTS no_bullets_response = false
  /\ bullet_points notes = []
  /\ short_notes notes = py "A"
  /\ exam_summary notes = py "B".
Proof.
  intros notes.
  assert (H : contains BULLET_POINTS no_bullets_response = false)
    by (vm_compute; reflexivity).
  destruct (generate_notes_missing_heading
              (fun _ => Some no_bullets_response) [] [] BulletPoints
              (or_introl H)) as [Hb Hf].
  split; [exact H |]. split; [exact Hb |]. split.
  - refine (eq_trans (Hf ShortNotes) _). vm_compute. reflexivity.
  - refine (eq_trans (Hf ExamSummary) _). vm_compute. reflexivity.
Defined.

(** ** Upload *)

Lemma extract_text_from_pdf_result
    (pdf_pages : bytes -> option (list (option str)))
    (file_bytes : bytes) (st : fitz_state) :
  (exists text st',
     extract_text_from_pdf pdf_pages file_bytes st = (Ok text, st'))
  \/ (exists st',
        extract_text_from_pdf pdf_pages file_bytes st
        = (Raise (HTTPException 400 (py "PDF text extraction failed")), st')).
Proof.
  unfold extract_text_from_pdf, try_except, bind, fitz_open.
  destruct (pdf_pages file_bytes) as [ps |];
    [| right; exists st; reflexivity].
  cbn [pages handle].
  match goal with
  | |- context [mapM get_text ps ?s] =>
      destruct (mapM get_text ps s) as [[texts | e] st1]
  end.
  - left. eexists. eexists. reflexivity.
  - right. eexists. reflexivity.
Qed.

Lemma upload_file_unsupported
    (pdf_pages : bytes -> option (list (option str)))
    (filename : str) (file_bytes : bytes) (st : fitz_state) :
  endswith filename (py ".pdf") = false ->
  endswith filename (py ".txt") = false ->
  upload_file pdf_pages filename file_bytes st = (Raise unsupported_format, st).
Proof.
  intros H1 H2. unfold upload_file, bind, read_text. now rewrite H1, H2.
Qed.

Lemma upload_file_supported
    (pdf_pages : bytes -> option (list (option str)))
    (filename : str) (file_bytes : bytes) (st : fitz_state) :
  endswith filename (py ".pdf") || endswith filename (py ".txt") = true ->
  raises_unsupported_format
    (fst (upload_file pdf_pages filename file_bytes st)) = false.
Proof.
  intros H. unfold upload_file, bind, read_text.
  destruct (endswith filename (py ".pdf")).
  - destruct (extract_text_from_pdf_result pdf_pages file_bytes st)
      as [[text [st' E]] | [st' E]]; rewrite E.
    + now destruct (null (clean_text text)).
    + reflexivity.
  - simpl in H. rewrite H. unfold decode.
    destruct (utf8_decode file_bytes) as [text |]; [| reflexivity].
    unfold ret. now destruct (null (clean_text text)).
Qed.

(** C7 (as stated, refuted): an empty file named "notes.txt" has a
    plain-text extension and still fails with a 400 error. *)
Lemma upload_file_empty_txt :
  endswith (py "notes.txt") (py ".txt") = true
  /\ upload_file no_pdf (py "notes.txt") [] initial_state
     = (Raise (HTTPException 400 (py "No valid text found")), initial_state).
Proof. vm_compute. split; reflexivity. Qed.

(** C7 (amended): [upload_file] fails with the 400 error "Only PDF and
    TXT supported" exactly when the file name ends in neither ".pdf" nor
    ".txt"; then nothing is opened, decoded or cleaned: the error does not
    depend on the content and the state of the PDF library is unchanged.
    In particular for "data.csv". *)
Theorem upload_file_unsupported_format
    (pdf_pages : bytes -> option (list (option str)))
    (filename : str) (file_bytes : bytes) (st : fitz_state) :
  (if endswith filename (py ".pdf") || endswith filename (py ".txt")
   then raises_unsupported_format
          (fst (upload_file pdf_pages filename file_bytes st)) = false
   else upload_file pdf_pages filename file_bytes st
        = (Raise (HTTPException 400 (py "Only PDF and TXT supported")), st))
  /\ upload_file pdf_pages (py "data.csv") file_bytes st
     = (Raise (HTTPException 400 (py "Only PDF and TXT supported")), st).
Proof.
  split.
  - destruct (endswith filename (py ".pdf") || endswith filename (py ".txt"))
      eqn:E.
    + now apply upload_file_supported.
    + apply orb_false_iff in E. destruct E. now apply upload_file_unsupported.
  - now apply upload_file_unsupported.
Qed.

(** C8: once the text of the upload has been obtained, [upload_file]
    fails with the 400 error "No valid text found" and no value when the
    cleaned text is empty, and otherwise returns exactly the cleaned
    text. *)
Theorem upload_file_cleaned
    (pdf_pages : bytes -> option (list (option str)))
    (filename : str) (file_bytes : bytes) (st st' : fitz_state) (text : str) :
  read_text pdf_pages filename file_bytes st = (Ok text, st') ->
  upload_file pdf_pages filename file_bytes st =
  (if null (clean_text text)
   then Raise (HTTPException 400 (py "No valid text found"))
   else Ok (clean_text text), st').
Proof.
  intros H. unfold upload_file, bind. rewrite H.
  now destruct (null (clean_text text)).
Qed.

Lemma upload_file_cleaned_witness :
  upload_file no_pdf (py "notes.txt")
    (ascii_bytes "Page 1" ++ [x0a] ++ ascii_bytes "Heat is  energy.")
    initial_state
  = (Ok (py "Heat is energy."), initial_state)
  /\ upload_file no_pdf (py "blank.txt")
       (ascii_bytes "Page 1" ++ [x0a] ++ ascii_bytes "12")
       initial_state
     = (Raise (HTTPException 400 (py "No valid text found")), initial_state).
Proof.
  split.
  - apply (upload_file_cleaned no_pdf (py "notes.txt") _ initial_state
             initial_state (py "Page 1" ++ [NL] ++ py "Heat is  energy.")).
    vm_compute. reflexivity.
  - apply (upload_file_cleaned no_pdf (py "blank.txt") _ initial_state
             initial_state (py "Page 1" ++ [NL] ++ py "12")).
    vm_compute. reflexivity.
Defined.

Lemma endswith_case (filename upper lower : str) :
  endswith filename upper = true ->
  rev upper <> [] -> rev lower <> [] ->
  hd 0 (rev upper) <> hd 0 (rev lower) ->
  endswith filename lower = false.
Proof.
  unfold endswith. intros H Hu Hl Hd.
  destruct (startswith (rev filename) (rev lower)) eqn:E; [| reflexivity].
  apply startswith_hd in H; [| assumption].
  apply startswith_hd in E; [| assumption].
  rewrite E in H. congruence.
Qed.

(** C10: the dispatch compares the extension as written: a file name that
    does not end in exactly ".pdf" or ".txt", in particular one that ends
    in ".PDF" or ".TXT", is rejected with the 400 error "Only PDF and TXT
    supported", and nothing is extracted or decoded. *)
Theorem upload_file_case_sensitive
    (pdf_pages : bytes -> option (list (option str)))
    (filename : str) (file_bytes : bytes) (st : fitz_state) :
  endswith filename (py ".pdf") || endswith filename (py ".txt") = false
  \/ endswith filename (py ".PDF") = true
  \/ endswith filename (py ".TXT") = true ->
  upload_file pdf_pages filename file_bytes st
  = (Raise (HTTPException 400 (py "Only PDF and TXT supported")), st).
Proof.
  intros [H | [H | H]].
  - apply orb_false_iff in H. destruct H. now apply upload_file_unsupported.
  - apply upload_file_unsupported;
      apply (endswith_case filename (py ".PDF")); try assumption;
      vm_compute; discriminate.
  - apply upload_file_unsupported;
      apply (endswith_case filename (py ".TXT")); try assumption;
      vm_compute; discriminate.
Qed.

Lemma upload_file_case_sensitive_witness :
  endswith (py "NOTES.PDF") (py ".PDF") = true
  /\ upload_file unreadable_pdf (py "NOTES.PDF") (ascii_bytes "%PDF-1.7")
       initial_state
     = (Raise (HTTPException 400 (py "Only PDF and TXT supported")),
        initial_state)
  /\ upload_file no_pdf (py "notes.Txt") (ascii_bytes "Heat") initial_state
     = (Raise (HTTPException 400 (py "Only PDF and TXT supported")),
        initial_state).
Proof.
  split; [vm_compute; reflexivity |]. split.
  - apply (upload_file_case_sensitive unreadable_pdf (py "NOTES.PDF")).
    right. left. vm_compute. reflexivity.
  - apply (upload_file_case_sensitive no_pdf (py "notes.Txt")).
    left. vm_compute. reflexivity.
Defined.

(** ** The PDF Text Extractor *)

Lemma mapM_get_text_state (ps : list (option str)) (st : fitz_state) :
  snd (mapM get_text ps st) = st.
Proof.
  revert st. induction ps as [| pg ps IH]; intros st; [reflexivity |].
  cbn [mapM]. unfold bind at 1. destruct pg as [t |]; cbn.
  - unfold bind. specialize (IH st).
    destruct (mapM get_text ps st) as [[ts | e] st1]; exact IH.
  - reflexivity.
Qed.

Lemma filter_fresh (h : nat) (l : list nat) :
  Forall (fun k => (k < h)%nat) l ->
  filter (fun k => negb (Nat.eqb k h)) l = l.
Proof.
  induction l as [| k l IH]; intros H; [reflexivity |].
  inversion H as [| ? ? Hk Hl]; subst. simpl.
  destruct (Nat.eqb_spec k h) as [-> | _]; [lia |].
  simpl. now rewrite IH.
Qed.

(** On the path without error the document is closed: the open documents
    after the call are those before it. *)
Lemma extract_text_from_pdf_success
    (pdf_pages : bytes -> option (list (option str)))
    (file_bytes : bytes) (st st' : fitz_state) (text : str) :
  Forall (fun k => (k < next_handle st)%nat) (open_documents st) ->
  extract_text_from_pdf pdf_pages file_bytes st = (Ok text, st') ->
  open_documents st' = open_documents st.
Proof.
  intros Hfresh. unfold extract_text_from_pdf, try_except, bind, fitz_open.
  destruct (pdf_pages file_bytes) as [ps |]; [| discriminate].
  cbn [pages handle].
  pose proof (mapM_get_text_state ps
                (mkFitz (S (next_handle st))
                   (next_handle st :: open_documents st))) as Hst.
  destruct (mapM get_text ps
              (mkFitz (S (next_handle st))
                 (next_handle st :: open_documents st)))
    as [[texts | e] st1]; [| discriminate].
  cbn in Hst. subst st1. unfold close, ret. cbn.
  rewrite Nat.eqb_refl. cbn. intros H. injection H as _ <-. cbn.
  now apply filter_fresh.
Qed.

Lemma mapM_get_text_fails (ps : list (option str)) :
  In None ps ->
  forall st, mapM get_text ps st = (Raise FitzError, st).
Proof.
  induction ps as [| pg ps IH]; intros Hin st; [contradiction |].
  cbn [mapM]. unfold bind at 1. destruct pg as [t |]; cbn.
  - unfold bind. rewrite IH; [reflexivity |].
    destruct Hin as [Hin | Hin]; [discriminate | assumption].
  - reflexivity.
Qed.

(** On the path with an unreadable page the document stays open. *)
Lemma extract_text_from_pdf_error_path
    (pdf_pages : bytes -> option (list (option str)))
    (file_bytes : bytes) (st : fitz_state) (ps : list (option str)) :
  pdf_pages file_bytes = Some ps -> In None ps ->
  extract_text_from_pdf pdf_pages file_bytes st
  = (Raise (HTTPException 400 (py "PDF text extraction failed")),
     mkFitz (S (next_handle st)) (next_handle st :: open_documents st)).
Proof.
  intros Hp Hin. unfold extract_text_from_pdf, try_except, bind, fitz_open.
  rewrite Hp. cbn [pages handle]. now rewrite mapM_get_text_fails.
Qed.

(** C9 (the code departs from it): a document opens, its second page
    cannot be read; [extract_text_from_pdf] answers with the 400 error and
    document 0 is still open, because [doc.close()] stands after the
    statement that raised. *)
Theorem extract_text_from_pdf_leaves_open :
  extract_text_from_pdf unreadable_pdf (ascii_bytes "%PDF-1.7") initial_state
  = (Raise (HTTPException 400 (py "PDF text extraction failed")),
     mkFitz 1 [0%nat])
  /\ open_documents
       (snd (extract_text_from_pdf unreadable_pdf (ascii_bytes "%PDF-1.7")
               initial_state))
     <> open_documents initial_state.
Proof. vm_compute. split; [reflexivity | discriminate]. Qed.

Example parse_sections_example :
  parse_sections
    (py "### Short Notes" ++ [NL] ++ py "A b" ++ [NL]
     ++ py "### Bullet Points" ++ [NL] ++ py "- c" ++ [NL]
     ++ py "### Exam-Oriented Summary" ++ [NL] ++ py "d" ++ [NL])
  = mkSections (py "A b") (py "- c") (py "d").
Proof. vm_compute. reflexivity. Qed.

Example utf8_decode_examples :
  utf8_decode (ascii_bytes "abc") = Some (py "abc")
  /\ utf8_decode [xc3; xa9] = Some [0xe9]
  /\ utf8_decode [xe2; x82; xac] = Some [0x20ac]
  /\ utf8_decode [xf0; x9f; x98; x80] = Some [0x1f600]
  /\ utf8_decode [xc0; x80] = None
  /\ utf8_decode [xed; xa0; x80] = None
  /\ utf8_decode [xff] = None.
Proof. vm_compute. repeat split; reflexivity. Qed.

(** * Further properties *)

(** ** Splitting at one character *)

Lemma split_from_nonempty (sep s : str) :
  forall k, split_from sep k s <> [].
Proof.
  induction s as [| c s IH]; intros k; [discriminate |].
  cbn [split_from]. destruct k as [| k]; [| apply IH].
  destruct (startswith (c :: s) sep); [discriminate |].
  specialize (IH O). destruct (split_from sep 0 s); [congruence | discriminate].
Qed.

Lemma split_single (c a : char) (s : str) :
  split [c] (a :: s) =
  if c =? a then [] :: split [c] s else cons_first a (split [c] s).
Proof.
  unfold split. cbn [split_from startswith List.length Nat.pred].
  now rewrite andb_true_r.
Qed.

Lemma join_cons_first (c a : char) (parts : list str) :
  parts <> [] -> join [c] (cons_first a parts) = a :: join [c] parts.
Proof. destruct parts as [| p [| q ps]]; [congruence | reflexivity ..]. Qed.

Lemma join_cons (sep p : str) (ps : list str) :
  ps <> [] -> join sep (p :: ps) = p ++ sep ++ join sep ps.
Proof. destruct ps; [congruence | reflexivity]. Qed.

Lemma join_split (c : char) (s : str) : join [c] (split [c] s) = s.
Proof.
  induction s as [| a s IH]; [reflexivity |].
  rewrite split_single. destruct (N.eqb_spec c a) as [-> | Hc].
  - rewrite join_cons by apply split_from_nonempty. cbn [app]. now rewrite IH.
  - rewrite join_cons_first by apply split_from_nonempty. now rewrite IH.
Qed.

Lemma cons_first_app (a : char) (l m : list str) :
  l <> [] -> cons_first a (l ++ m) = cons_first a l ++ m.
Proof. destruct l; [congruence | reflexivity]. Qed.

Lemma split_app_single (c : char) (a b : str) :
  split [c] (a ++ c :: b) = split [c] a ++ split [c] b.
Proof.
  induction a as [| x a IH]; cbn [app].
  - rewrite split_single, N.eqb_refl. reflexivity.
  - rewrite !split_single. destruct (c =? x).
    + now rewrite IH.
    + rewrite IH. apply cons_first_app. apply split_from_nonempty.
Qed.

Lemma split_single_parts (c : char) (s : str) :
  Forall (fun part => forallb (fun x => negb (x =? c)) part = true)
    (split [c] s).
Proof.
  induction s as [| a s IH]; [repeat constructor |].
  rewrite split_single. destruct (N.eqb_spec c a) as [-> | Hc].
  - constructor; [reflexivity | assumption].
  - pose proof (split_from_nonempty [c] s O) as Hne.
    unfold split in *. destruct (split_from [c] 0 s) as [| p ps];
      [congruence |].
    inversion IH as [| ? ? Hp Hps]; subst. cbn [cons_first].
    constructor; [| assumption]. cbn [forallb]. rewrite Hp, andb_true_r.
    apply negb_true_iff. apply N.eqb_neq. congruence.
Qed.

Lemma snoc_last_cons (c : char) (p : str) (ps : list str) :
  ps <> [] -> snoc_last c (p :: ps) = p :: snoc_last c ps.
Proof. destruct ps; [congruence | reflexivity]. Qed.

Lemma split_snoc (n c : char) (a : str) :
  c <> n -> split [n] (a ++ [c]) = snoc_last c (split [n] a).
Proof.
  intros Hc. induction a as [| x a IH]; cbn [app].
  - rewrite split_single.
    destruct (N.eqb_spec n c) as [E | _]; [congruence | reflexivity].
  - rewrite !split_single. rewrite IH.
    pose proof (split_from_nonempty [n] a O) as Hne. unfold split in *.
    destruct (n =? x).
    + now rewrite snoc_last_cons.
    + destruct (split_from [n] 0 a) as [| p [| q ps]];
        [congruence | reflexivity ..].
Qed.

(** ** Whitespace around a line *)

Lemma strip_all_space (s : str) : forallb isspace s = true -> strip s = [].
Proof.
  intros H. unfold strip.
  replace (lstrip s) with (lstrip (s ++ [])) by now rewrite app_nil_r.
  now rewrite lstrip_spaces.
Qed.

Lemma strip_pad (a x c : str) :
  forallb isspace a = true -> forallb isspace c = true ->
  strip (a ++ x ++ c) = strip x.
Proof.
  intros Ha Hc.
  destruct (strip_decompose x) as [w1 [w2 [Ex [H1 H2]]]].
  destruct (strip_nil_or_tight x) as [E | T].
  - rewrite E. apply strip_all_space.
    rewrite Ex, E. cbn [app]. rewrite !forallb_app.
    now rewrite Ha, H1, H2, Hc.
  - rewrite Ex at 1.
    replace (a ++ (w1 ++ strip x ++ w2) ++ c)
      with ((a ++ w1) ++ strip x ++ (w2 ++ c))
      by now rewrite <- !app_assoc.
    apply strip_sandwich; [| | assumption]; rewrite forallb_app.
    + now rewrite Ha, H1.
    + now rewrite H2, Hc.
Qed.

Lemma strip_idem (s : str) : strip (strip s) = strip s.
Proof.
  destruct (strip_nil_or_tight s) as [E | T].
  - now rewrite E.
  - now apply strip_tight.
Qed.

Lemma map_strip_snoc_last (c : char) (parts : list str) :
  isspace c = true -> parts <> [] ->
  map strip (snoc_last c parts) = map strip parts.
Proof.
  intros Hc. induction parts as [| p ps IH]; [congruence |]. intros _.
  destruct ps as [| q ps].
  - cbn [snoc_last map]. f_equal.
    replace (p ++ [c]) with ([] ++ p ++ [c]) by reflexivity.
    apply strip_pad; [reflexivity |]. cbn [forallb]. now rewrite Hc.
  - rewrite snoc_last_cons by discriminate.
    cbn [map]. f_equal. apply IH. discriminate.
Qed.

Lemma map_strip_cons_first (c : char) (parts : list str) :
  isspace c = true -> parts <> [] ->
  map strip (cons_first c parts) = map strip parts.
Proof.
  intros Hc. destruct parts as [| p ps]; [congruence |]. intros _.
  cbn [cons_first map]. f_equal.
  replace (c :: p) with ([c] ++ p ++ []) by (cbn; now rewrite app_nil_r).
  replace p with ([] ++ p) at 2 by reflexivity.
  rewrite strip_pad; [reflexivity | | reflexivity].
  cbn [forallb]. now rewrite Hc.
Qed.

(** ** Lines of a text *)

Lemma clean_text_kept (t : str) :
  clean_text t = squeeze false (join [SP] (kept_lines t)).
Proof. unfold clean_text. now rewrite sub_spaces. Qed.

Lemma kept_lines_newline (a b : str) :
  kept_lines (a ++ NL :: b) = kept_lines a ++ kept_lines b.
Proof.
  unfold kept_lines. now rewrite split_app_single, map_app, filter_app.
Qed.

Lemma kept_lines_nil : kept_lines [] = [].
Proof. reflexivity. Qed.

Lemma kept_lines_leading (c : char) (a : str) :
  isspace c = true -> kept_lines (c :: a) = kept_lines a.
Proof.
  intros Hc. destruct (N.eqb_spec c NL) as [-> | Hn].
  - change (NL :: a) with ([] ++ NL :: a). now rewrite kept_lines_newline.
  - unfold kept_lines. rewrite split_single.
    destruct (N.eqb_spec NL c) as [E | _]; [congruence |].
    rewrite map_strip_cons_first;
      [reflexivity | assumption | apply split_from_nonempty].
Qed.

Lemma kept_lines_trailing (c : char) (a : str) :
  isspace c = true -> kept_lines (a ++ [c]) = kept_lines a.
Proof.
  intros Hc. destruct (N.eqb_spec c NL) as [-> | Hn].
  - rewrite kept_lines_newline, kept_lines_nil. apply app_nil_r.
  - unfold kept_lines. rewrite split_snoc by assumption.
    rewrite map_strip_snoc_last;
      [reflexivity | assumption | apply split_from_nonempty].
Qed.

Lemma kept_lines_padded (ws1 ws2 a : str) :
  forallb isspace ws1 = true -> forallb isspace ws2 = true ->
  kept_lines (ws1 ++ a ++ ws2) = kept_lines a.
Proof.
  intros H1 H2.
  assert (Hl : forall ws x, forallb isspace ws = true ->
                            kept_lines (ws ++ x) = kept_lines x).
  { induction ws as [| c ws IH]; intros x H; [reflexivity |].
    cbn [forallb] in H. apply andb_true_iff in H. destruct H as [Hc Hws].
    cbn [app]. rewrite kept_lines_leading by assumption. now apply IH. }
  assert (Hr : forall ws x, forallb isspace ws = true ->
                            kept_lines (x ++ ws) = kept_lines x).
  { induction ws as [| c ws IH]; intros x H; [now rewrite app_nil_r |].
    cbn [forallb] in H. apply andb_true_iff in H. destruct H as [Hc Hws].
    replace (x ++ c :: ws) with ((x ++ [c]) ++ ws)
      by now rewrite <- app_assoc.
    rewrite IH by assumption. now apply kept_lines_trailing. }
  rewrite Hl by assumption. now apply Hr.
Qed.

Lemma squeeze_flag (y : str) :
  isspace (hd SP y) = false -> squeeze true y = squeeze false y.
Proof.
  destruct y as [| c y]; [reflexivity |]. cbn [hd squeeze]. now intros ->.
Qed.

Lemma squeeze_app_space (x y : str) :
  isspace (last x SP) = false -> isspace (hd SP y) = false ->
  forall b, squeeze b (x ++ SP :: y) = squeeze b x ++ SP :: squeeze false y.
Proof.
  intros Hx Hy. induction x as [| c x IH]; intros b.
  - vm_compute in Hx. discriminate.
  - destruct x as [| c' x'].
    + cbn [last] in Hx. cbn [app squeeze]. rewrite Hx, isspace_SP.
      now rewrite squeeze_flag.
    + assert (Hx' : isspace (last (c' :: x') SP) = false) by exact Hx.
      change ((c :: c' :: x') ++ SP :: y)
        with (c :: ((c' :: x') ++ SP :: y)).
      change (squeeze b (c :: (c' :: x') ++ SP :: y))
        with (if isspace c
              then if b then squeeze true ((c' :: x') ++ SP :: y)
                   else SP :: squeeze true ((c' :: x') ++ SP :: y)
              else c :: squeeze false ((c' :: x') ++ SP :: y)).
      change (squeeze b (c :: c' :: x'))
        with (if isspace c
              then if b then squeeze true (c' :: x')
                   else SP :: squeeze true (c' :: x')
              else c :: squeeze false (c' :: x')).
      rewrite !(IH Hx'). destruct (isspace c); [destruct b |]; reflexivity.
Qed.

Lemma join_app (sep : str) (l m : list str) :
  l <> [] -> m <> [] -> join sep (l ++ m) = join sep l ++ sep ++ join sep m.
Proof.
  intros Hl Hm. induction l as [| p l IH]; [congruence |].
  destruct l as [| q l].
  - cbn [app]. now rewrite join_cons.
  - change ((p :: q :: l) ++ m) with (p :: ((q :: l) ++ m)).
    rewrite join_cons by discriminate. rewrite IH by discriminate.
    rewrite (join_cons sep p (q :: l)) by discriminate.
    now rewrite <- !app_assoc.
Qed.

Lemma squeeze_join_tight (l : str) (ls : list str) :
  Forall tight (l :: ls) -> tight (squeeze false (join [SP] (l :: ls))).
Proof.
  intros H. inversion H; subst. apply tight_squeeze. now apply tight_join.
Qed.

Lemma kept_lines_all_tight (t : str) : Forall tight (kept_lines t).
Proof. apply kept_lines_tight. Qed.

Lemma squeeze_glue (l1 l2 : list str) :
  Forall tight l1 -> Forall tight l2 ->
  squeeze false (join [SP] (l1 ++ l2)) =
  glue (squeeze false (join [SP] l1)) (squeeze false (join [SP] l2)).
Proof.
  intros H1 H2. destruct l1 as [| p l1]; [reflexivity |].
  pose proof (squeeze_join_tight p l1 H1) as T1.
  unfold glue.
  destruct (squeeze false (join [SP] (p :: l1))) as [| c x] eqn:E1;
    [now apply tight_nonempty in T1 |].
  cbn [null]. destruct l2 as [| q l2]; [now rewrite app_nil_r, E1 |].
  pose proof (squeeze_join_tight q l2 H2) as T2.
  destruct (squeeze false (join [SP] (q :: l2))) as [| d y] eqn:E2;
    [now apply tight_nonempty in T2 |].
  cbn [null]. rewrite join_app by discriminate.
  inversion H1; subst. inversion H2; subst.
  cbn [app]. rewrite squeeze_app_space.
  - now rewrite E1, E2.
  - now apply tight_join.
  - now apply tight_join.
Qed.

(** X1: a text made of two texts with a newline between them is cleaned to
    the two cleaned texts with one space between them, or to the one that
    is not empty. *)
Theorem clean_text_newline (a b : str) :
  clean_text (a ++ [NL] ++ b) = glue (clean_text a) (clean_text b).
Proof.
  rewrite !clean_text_kept. cbn [app]. rewrite kept_lines_newline.
  apply squeeze_glue; apply kept_lines_all_tight.
Qed.

(** X2: whitespace of any kind before and after a text, blank lines
    included, does not change the cleaned text. *)
Theorem clean_text_padding (ws1 ws2 a : str) :
  forallb isspace ws1 = true -> forallb isspace ws2 = true ->
  clean_text (ws1 ++ a ++ ws2) = clean_text a.
Proof.
  intros H1 H2. rewrite !clean_text_kept. now rewrite kept_lines_padded.
Qed.

Lemma clean_text_padding_witness :
  clean_text ([NL; SP; 9] ++ py "Heat is energy." ++ [CR; NL; NL; 0xa0])
  = clean_text (py "Heat is energy.").
Proof.
  apply (clean_text_padding [NL; SP; 9] [CR; NL; NL; 0xa0]);
    vm_compute; reflexivity.
Defined.

(** X3: a line that ends in carriage return and newline is treated as one
    that ends in a newline. *)
Theorem clean_text_crlf (a b : str) :
  clean_text (a ++ [CR; NL] ++ b) = clean_text (a ++ [NL] ++ b).
Proof.
  rewrite !clean_text_kept. cbn [app].
  replace (a ++ CR :: NL :: b) with ((a ++ [CR]) ++ NL :: b)
    by now rewrite <- app_assoc.
  rewrite !kept_lines_newline. now rewrite kept_lines_trailing.
Qed.

(** ** What a cleaned text looks like *)

(** X4: a cleaned text has no whitespace at its ends, its only whitespace
    characters are spaces (no newline, tab or other kind is left), and it
    is never a string of digits. *)
Theorem clean_text_normal_form (t : str) :
  strip (clean_text t) = clean_text t
  /\ forallb (fun c => negb (isspace c) || (c =? SP)) (clean_text t) = true
  /\ re.fullmatch digits_re (clean_text t) = false.
Proof.
  split; [| split].
  - destruct (clean_text_shape t) as [E | [T _]].
    + now rewrite E.
    + now apply strip_tight.
  - apply forallb_forall. intros c Hc.
    destruct (isspace c) eqn:E; [| reflexivity].
    rewrite clean_text_kept in Hc.
    rewrite (squeeze_space_only _ _ _ Hc E). reflexivity.
  - rewrite fullmatch_digits.
    destruct (clean_text_shape t) as [E | [_ D]]; [now rewrite E | exact D].
Qed.

Lemma collapsed_no_newline (s : str) :
  collapse_whitespace s = s -> ~ In NL s.
Proof.
  unfold collapse_whitespace. intros E H. rewrite <- E in H.
  apply squeeze_space_only in H; [discriminate | reflexivity].
Qed.

(** X5: a text without whitespace at its ends whose whitespace runs are
    single spaces, which is not a string of digits and does not start
    like a header line, is returned unchanged. *)
Theorem clean_text_fixed_point (s : str) :
  tight s -> collapse_whitespace s = s ->
  all_digits s = false -> header_line s = false ->
  clean_text s = s.
Proof.
  intros T C D H. unfold clean_text.
  rewrite (split_no_newline s (collapsed_no_newline s C)).
  cbn [map]. rewrite (strip_tight s T). cbn [filter].
  rewrite keep_line_discard. unfold discard_line. rewrite D, H.
  apply tight_nonempty in T. destruct s as [| c s]; [congruence |].
  cbn [null orb negb join]. rewrite sub_spaces. exact C.
Qed.

Lemma clean_text_fixed_point_witness :
  clean_text (py "Heat is **energy**, see Page 3.")
  = py "Heat is **energy**, see Page 3.".
Proof.
  apply clean_text_fixed_point.
  - split; vm_compute; reflexivity.
  - vm_compute. reflexivity.
  - vm_compute. reflexivity.
  - vm_compute. reflexivity.
Defined.

(** ** Length and content *)

Lemma squeeze_length (s : str) :
  forall b, (List.length (squeeze b s) <= List.length s)%nat.
Proof.
  induction s as [| c s IH]; intros b; [apply Nat.le_refl |].
  cbn [squeeze]. destruct (isspace c); [destruct b |]; cbn [List.length].
  - specialize (IH true). lia.
  - specialize (IH true). lia.
  - specialize (IH false). lia.
Qed.

Lemma join_weight (c : char) (parts : list str) :
  List.length (join [c] parts) = Nat.pred (weight parts).
Proof.
  induction parts as [| p ps IH]; [reflexivity |].
  destruct ps as [| q ps].
  - cbn. lia.
  - rewrite join_cons by discriminate.
    rewrite !length_app, IH. cbn [weight List.length]. cbn [weight] in IH. lia.
Qed.

Lemma strip_length (p : str) :
  (List.length (strip p) <= List.length p)%nat.
Proof.
  destruct (strip_decompose p) as [w1 [w2 [E _]]].
  rewrite E at 2. rewrite !length_app. lia.
Qed.

Lemma weight_kept (parts : list str) :
  (weight (filter keep_line (map strip parts)) <= weight parts)%nat.
Proof.
  induction parts as [| p ps IH]; [apply Nat.le_refl |].
  cbn [map filter]. pose proof (strip_length p) as Hp.
  destruct (keep_line (strip p)); cbn [weight]; lia.
Qed.

(** X6: cleaning never makes a text longer. *)
Theorem clean_text_length (t : str) :
  (List.length (clean_text t) <= List.length t)%nat.
Proof.
  rewrite clean_text_kept.
  pose proof (squeeze_length (join [SP] (kept_lines t)) false) as H1.
  rewrite join_weight in H1.
  pose proof (weight_kept (split [NL] t)) as H2.
  pose proof (join_weight NL (split [NL] t)) as H3.
  rewrite join_split in H3. unfold kept_lines in *.
  unfold str, char in *. lia.
Qed.

Lemma squeeze_chars (s : str) :
  forall b c, In c (squeeze b s) -> c = SP \/ In c s.
Proof.
  induction s as [| a s IH]; intros b c; [contradiction |].
  cbn [squeeze]. destruct (isspace a); [destruct b |].
  - intros H. destruct (IH _ _ H); [now left | right; now right].
  - intros [<- | H]; [now left |].
    destruct (IH _ _ H); [now left | right; now right].
  - intros [<- | H]; [right; now left |].
    destruct (IH _ _ H); [now left | right; now right].
Qed.

Lemma join_chars (sep : str) (parts : list str) (c : char) :
  In c (join sep parts) -> In c sep \/ exists p, In p parts /\ In c p.
Proof.
  induction parts as [| p ps IH]; [contradiction |].
  destruct ps as [| q ps].
  - intros H. right. exists p. split; [now left | assumption].
  - rewrite join_cons by discriminate. intros H.
    apply in_app_or in H. destruct H as [H | H].
    + right. exists p. split; [now left | assumption].
    + apply in_app_or in H. destruct H as [H | H]; [now left |].
      destruct (IH H) as [Hs | [p' [Hp' Hc]]]; [now left |].
      right. exists p'. split; [now right | assumption].
Qed.

Lemma strip_chars (p : str) (c : char) : In c (strip p) -> In c p.
Proof.
  intros H. destruct (strip_decompose p) as [w1 [w2 [E _]]].
  rewrite E. apply in_or_app. right. apply in_or_app. now left.
Qed.

Lemma split_chars (sep s p : str) (c : char) :
  In p (split sep s) -> In c p -> In c s.
Proof.
  intros Hp Hc. apply split_parts_occur in Hp. destruct Hp as [a [b ->]].
  apply in_or_app. right. apply in_or_app. now left.
Qed.

(** X7: cleaning invents nothing: every character of the cleaned text is
    a space or a character of the text. *)
Theorem clean_text_characters (t : str) :
  forallb (fun c => (c =? SP) || existsb (N.eqb c) t) (clean_text t) = true.
Proof.
  apply forallb_forall. intros c Hc. rewrite clean_text_kept in Hc.
  apply squeeze_chars in Hc. destruct Hc as [-> | Hc]; [reflexivity |].
  apply join_chars in Hc. destruct Hc as [[<- | []] | [p [Hp Hc]]];
    [reflexivity |].
  apply orb_true_iff. right. apply existsb_exists. exists c.
  split; [| apply N.eqb_refl].
  unfold kept_lines in Hp. apply filter_In in Hp. destruct Hp as [Hp _].
  apply in_map_iff in Hp. destruct Hp as [q [<- Hq]].
  apply strip_chars in Hc. now apply (split_chars [NL] t q).
Qed.

(** ** The parts of a longer response *)

Lemma straddle_free (c : char) (out p : str) :
  endswith (c :: out) [HASH] = false ->
  startswith ((c :: out) ++ DELIMITER ++ p) DELIMITER
  = startswith (c :: out) DELIMITER.
Proof.
  intros H. change DELIMITER with [HASH; HASH; HASH].
  destruct (N.eqb_spec HASH c) as [<- | Hc];
    [| cbn [app startswith]; apply N.eqb_neq in Hc; now rewrite Hc].
  destruct out as [| d out]; [discriminate H |].
  destruct (N.eqb_spec HASH d) as [<- | Hd];
    [| cbn [app startswith]; apply N.eqb_neq in Hd;
       now rewrite Hd, !andb_false_r].
  destruct out as [| e out]; [discriminate H |].
  destruct (N.eqb_spec HASH e) as [<- | He];
    [| cbn [app startswith]; apply N.eqb_neq in He;
       now rewrite He, !andb_false_r].
  reflexivity.
Qed.

Lemma endswith_tail (c h : char) (x : str) :
  endswith (c :: x) [h] = false -> endswith x [h] = false.
Proof.
  destruct x as [| d x]; [reflexivity |].
  now rewrite endswith_cons by discriminate.
Qed.

Lemma split_from_app_delimiter (p out : str) :
  forall k, (k <= List.length out)%nat ->
            endswith out [HASH] = false ->
            split_from DELIMITER k (out ++ DELIMITER ++ p)
            = split_from DELIMITER k out ++ split_from DELIMITER 0 p.
Proof.
  induction out as [| c out IH]; intros k Hk He.
  - assert (k = O) by (cbn in Hk; lia). subst k.
    change DELIMITER with (HASH :: [HASH; HASH]).
    exact (split_prefix HASH [HASH; HASH] p).
  - pose proof (endswith_tail _ _ _ He) as He'.
    destruct k as [| k].
    + change (split_from DELIMITER 0 ((c :: out) ++ DELIMITER ++ p))
        with (if startswith ((c :: out) ++ DELIMITER ++ p) DELIMITER
              then [] :: split_from DELIMITER 2 (out ++ DELIMITER ++ p)
              else cons_first c
                     (split_from DELIMITER 0 (out ++ DELIMITER ++ p))).
      change (split_from DELIMITER 0 (c :: out))
        with (if startswith (c :: out) DELIMITER
              then [] :: split_from DELIMITER 2 out
              else cons_first c (split_from DELIMITER 0 out)).
      rewrite straddle_free by assumption.
      destruct (startswith (c :: out) DELIMITER) eqn:E.
      * apply startswith_prefix in E. destruct E as [t E].
        change DELIMITER with [HASH; HASH; HASH] in E.
        cbn [app] in E. injection E as _ ->.
        rewrite IH; [reflexivity | cbn; lia | assumption].
      * rewrite IH by (assumption || lia).
        apply cons_first_app. apply split_from_nonempty.
    + cbn [app split_from]. apply IH; [cbn in Hk; lia | assumption].
Qed.

Lemma split_app_delimiter (out p : str) :
  endswith out [HASH] = false ->
  split DELIMITER (out ++ DELIMITER ++ p)
  = split DELIMITER out ++ split DELIMITER p.
Proof. intros H. apply split_from_app_delimiter; [lia | assumption]. Qed.

Lemma parse_sections_app (out rest : str) :
  endswith out [HASH] = false ->
  parse_sections (out ++ DELIMITER ++ rest)
  = fold_left classify (split DELIMITER rest) (parse_sections out).
Proof.
  intros H. unfold parse_sections.
  now rewrite split_app_delimiter, fold_left_app.
Qed.

Lemma parse_sections_block (h : heading) (out ws b : str) :
  endswith out [HASH] = false ->
  forallb isspace ws = true ->
  plain_body (label h) b = true ->
  contains DELIMITER b = false ->
  parse_sections (out ++ block ws (label h) b)
  = with_field h (strip b) (parse_sections out).
Proof.
  intros He Hws Hb Hd. unfold block. rewrite parse_sections_app by assumption.
  rewrite split_absent.
  - cbn [fold_left]. now apply classify_block.
  - rewrite !no_hash_contains;
      [assumption | apply label_no_hash | now apply spaces_no_hash].
Qed.

Lemma plain_body_nonempty (lbl b : str) : plain_body lbl b = true -> b <> [].
Proof.
  unfold plain_body. intros H ->. discriminate H.
Qed.

Lemma block_end (out ws lbl b : str) :
  b <> [] -> endswith (out ++ block ws lbl b) [HASH] = endswith b [HASH].
Proof.
  intros Hb. unfold block. rewrite !app_assoc. now apply endswith_app.
Qed.

(** X8: a response is parsed part by part: for a response that continues
    after a delimiter, the notes are those of the text before it, updated
    by the parts that follow (provided the text before the delimiter does
    not end in "#"). *)
Theorem generate_notes_incremental
    (generate_content : str -> option str) (text difficulty out rest : str) :
  response_text generate_content text difficulty
    = out ++ DELIMITER ++ rest ->
  endswith out [HASH] = false ->
  generate_notes generate_content text difficulty
  = fold_left classify (split DELIMITER rest) (parse_sections out).
Proof.
  intros Hr He. rewrite generate_notes_parses, Hr.
  now apply parse_sections_app.
Qed.

Lemma generate_notes_incremental_witness :
  generate_notes (fun _ => Some tidy_response) [] []
  = fold_left classify
      (split DELIMITER
         ([SP] ++ SHORT_NOTES ++ [NL] ++ py "Heat is **energy**."
          ++ [NL] ++ [NL]
          ++ block [SP] BULLET_POINTS
               ([NL] ++ py "- heat" ++ [NL] ++ py "- work" ++ [NL] ++ [NL])
          ++ block [SP] EXAM_SUMMARY
               ([NL] ++ py "Define heat. Use C#" ++ [NL])))
      (parse_sections (py "Here are the notes." ++ [NL])).
Proof.
  apply generate_notes_incremental; vm_compute; reflexivity.
Defined.

(** X9: when the text before it does not end in "#", a section at the
    end of the response (delimiter, optional whitespace, heading label,
    and a body that is not blank, holds no delimiter and does not repeat
    its label) sets its field to its trimmed body and leaves the other
    fields as parsed from the text before it: of two sections with the
    same heading the later one is kept. *)
Theorem generate_notes_last_section
    (generate_content : str -> option str) (text difficulty : str)
    (h : heading) (out ws b : str) :
  response_text generate_content text difficulty
    = out ++ block ws (label h) b ->
  endswith out [HASH] = false ->
  forallb isspace ws = true ->
  plain_body (label h) b = true ->
  contains DELIMITER b = false ->
  generate_notes generate_content text difficulty
  = with_field h (strip b) (parse_sections out).
Proof.
  intros Hr He Hws Hb Hd. rewrite generate_notes_parses, Hr.
  now apply parse_sections_block.
Qed.

Lemma generate_notes_last_section_witness :
  generate_notes
    (fun _ => Some (repeated_response
                    ++ block [SP] SHORT_NOTES ([NL] ++ py "final" ++ [NL])))
    [] []
  = mkSections (py "final") [] (py "y").
Proof.
  apply (generate_notes_last_section _ [] [] ShortNotes repeated_response
           [SP] ([NL] ++ py "final" ++ [NL]));
    vm_compute; reflexivity.
Defined.

Lemma summarize_field (generate_content : str -> option str)
    (req : SummarizeRequest) (h : heading) :
  field h (summarize generate_content req)
  = field h (parse_sections
               (response_text generate_content (text req) (difficulty req))).
Proof. destruct h; reflexivity. Qed.

Lemma delimiter_free_parts (b : str) :
  delimiter_free b = true ->
  contains DELIMITER b = false /\ endswith b [HASH] = false.
Proof.
  unfold delimiter_free. intros H. apply andb_true_iff in H.
  destruct H as [H1 H2]. now apply negb_true_iff in H1, H2.
Qed.

Lemma three_blocks (h1 h2 h3 : heading) (out ws1 b1 ws2 b2 ws3 b3 : str) :
  endswith out [HASH] = false ->
  forallb isspace ws1 = true -> forallb isspace ws2 = true ->
  forallb isspace ws3 = true ->
  plain_body (label h1) b1 = true -> delimiter_free b1 = true ->
  plain_body (label h2) b2 = true -> delimiter_free b2 = true ->
  plain_body (label h3) b3 = true -> contains DELIMITER b3 = false ->
  parse_sections
    (out ++ block ws1 (label h1) b1 ++ block ws2 (label h2) b2
     ++ block ws3 (label h3) b3)
  = with_field h3 (strip b3)
      (with_field h2 (strip b2)
         (with_field h1 (strip b1) (parse_sections out))).
Proof.
  intros He W1 W2 W3 P1 D1 P2 D2 P3 D3.
  apply delimiter_free_parts in D1, D2.
  destruct D1 as [C1 E1]. destruct D2 as [C2 E2].
  rewrite !app_assoc.
  rewrite parse_sections_block; try assumption.
  - rewrite parse_sections_block; try assumption.
    + now rewrite parse_sections_block.
    + rewrite block_end; [assumption | now apply plain_body_nonempty in P1].
  - rewrite block_end; [assumption | now apply plain_body_nonempty in P2].
Qed.

(** A preamble that ends in "#" takes the first delimiter with it: the
    first heading is then not found. *)
Example generate_notes_preamble_hash :
  short_notes
    (parse_sections
       (py "Notes on C#"
        ++ block [SP] SHORT_NOTES (py " a")
        ++ block [SP] BULLET_POINTS (py " b")
        ++ block [SP] EXAM_SUMMARY (py " c"))) = [].
Proof. vm_compute. reflexivity. Qed.

(** C3 (amended): when the response is a preamble that does not end in
    "#", followed by the three sections in the order Short Notes, Bullet
    Points, Exam-Oriented Summary, each made of the delimiter "###",
    optional whitespace, the heading label and a body, where every body
    holds a character that is not whitespace, holds no "###" and does not
    hold its own heading label, and the first two bodies do not end in
    "#", then the three fields are nonempty and equal to the trimmed
    bodies. *)
Theorem generate_notes_well_formed
    (generate_content : str -> option str) (text difficulty : str)
    (pre ws1 b1 ws2 b2 ws3 b3 : str) :
  response_text generate_content text difficulty =
    pre ++ block ws1 SHORT_NOTES b1 ++ block ws2 BULLET_POINTS b2
    ++ block ws3 EXAM_SUMMARY b3 ->
  endswith pre [HASH] = false ->
  forallb isspace ws1 = true ->
  forallb isspace ws2 = true ->
  forallb isspace ws3 = true ->
  plain_body SHORT_NOTES b1 = true -> delimiter_free b1 = true ->
  plain_body BULLET_POINTS b2 = true -> delimiter_free b2 = true ->
  plain_body EXAM_SUMMARY b3 = true -> contains DELIMITER b3 = false ->
  generate_notes generate_content text difficulty
    = mkSections (strip b1) (strip b2) (strip b3)
  /\ null (strip b1) = false
  /\ null (strip b2) = false
  /\ null (strip b3) = false.
Proof.
  intros Hr Hpre Hw1 Hw2 Hw3 Hp1 Hd1 Hp2 Hd2 Hp3 Hd3.
  assert (Hn : forall lbl b, plain_body lbl b = true -> null (strip b) = false).
  { intros lbl b H. unfold plain_body in H. apply andb_true_iff in H.
    destruct H as [H _]. now apply negb_true_iff in H. }
  split; [| repeat split; eapply Hn; eassumption].
  rewrite generate_notes_parses, Hr.
  rewrite (three_blocks ShortNotes BulletPoints ExamSummary) by assumption.
  now destruct (parse_sections pre).
Qed.

Lemma generate_notes_well_formed_witness :
  generate_notes (fun _ => Some tidy_response) (py "Heat") (py "easy")
  = mkSections (py "Heat is **energy**.")
      (py "- heat" ++ [NL] ++ py "- work") (py "Define heat. Use C#").
Proof.
  apply (generate_notes_well_formed (fun _ => Some tidy_response)
           (py "Heat") (py "easy")
           (py "Here are the notes." ++ [NL])
           [SP] ([NL] ++ py "Heat is **energy**." ++ [NL] ++ [NL])
           [SP] ([NL] ++ py "- heat" ++ [NL] ++ py "- work" ++ [NL] ++ [NL])
           [SP] ([NL] ++ py "Define heat. Use C#" ++ [NL]));
    vm_compute; reflexivity.
Defined.

(** X10: the three sections are recognised in any order: after a
    preamble that does not end in "#", for three sections with different
    headings, each made of the delimiter, optional whitespace, the label
    and a body that is not blank, holds no "###" and does not repeat its
    own label (the first two bodies not ending in "#"), each field of the
    response of [summarize] is the trimmed body that follows its
    heading. *)
Theorem summarize_any_order
    (generate_content : str -> option str) (req : SummarizeRequest)
    (h1 h2 h3 : heading) (out ws1 b1 ws2 b2 ws3 b3 : str) :
  h1 <> h2 -> h1 <> h3 -> h2 <> h3 ->
  response_text generate_content (text req) (difficulty req)
    = out ++ block ws1 (label h1) b1 ++ block ws2 (label h2) b2
      ++ block ws3 (label h3) b3 ->
  endswith out [HASH] = false ->
  forallb isspace ws1 = true -> forallb isspace ws2 = true ->
  forallb isspace ws3 = true ->
  plain_body (label h1) b1 = true -> delimiter_free b1 = true ->
  plain_body (label h2) b2 = true -> delimiter_free b2 = true ->
  plain_body (label h3) b3 = true -> contains DELIMITER b3 = false ->
  field h1 (summarize generate_content req) = strip b1
  /\ field h2 (summarize generate_content req) = strip b2
  /\ field h3 (summarize generate_content req) = strip b3.
Proof.
  intros N12 N13 N23 Hr He W1 W2 W3 P1 D1 P2 D2 P3 D3.
  rewrite !summarize_field, Hr.
  rewrite three_blocks by assumption.
  rewrite !field_with_field.
  destruct h1, h2, h3; try congruence; repeat split; reflexivity.
Qed.

Lemma summarize_any_order_witness :
  summarize (fun _ => Some reordered_response)
    (mkSummarizeRequest (py "Heat") (py "easy"))
  = mkSections (py "Heat is energy.") (py "- heat") (py "Define heat.").
Proof.
  destruct (summarize_any_order (fun _ => Some reordered_response)
              (mkSummarizeRequest (py "Heat") (py "easy"))
              ExamSummary ShortNotes BulletPoints
              (py "Notes:" ++ [NL])
              [SP] ([NL] ++ py "Define heat." ++ [NL])
              [] ([NL] ++ py "Heat is energy." ++ [NL])
              [SP] ([NL] ++ py "- heat" ++ [NL]))
    as [H1 [H2 H3]].
  1-3: discriminate.
  1-11: vm_compute; reflexivity.
  apply sections_eq. intros h. destruct h.
  - exact H2.
  - exact H3.
  - exact H1.
Defined.

(** X11: every field of the response of [summarize] is empty or has no
    whitespace at its ends. *)
Theorem summarize_fields_trimmed
    (generate_content : str -> option str) (req : SummarizeRequest)
    (h : heading) :
  strip (field h (summarize generate_content req))
  = field h (summarize generate_content req).
Proof.
  rewrite summarize_field, parse_field. unfold section_of.
  destruct (last_part_with _ _); [apply strip_idem | reflexivity].
Qed.

(** ** The prompt *)

Lemma build_prompt_blocks (text difficulty : str) :
  build_prompt text difficulty
  = prompt_head text difficulty
    ++ block [SP] SHORT_NOTES ([NL] ++ placeholder ++ [NL] ++ [NL])
    ++ block [SP] BULLET_POINTS ([NL] ++ placeholder ++ [NL] ++ [NL])
    ++ block [SP] EXAM_SUMMARY ([NL] ++ placeholder ++ [NL]).
Proof.
  unfold build_prompt, prompt_head. rewrite <- !app_assoc. reflexivity.
Qed.

Lemma prompt_head_end (text difficulty : str) :
  endswith (prompt_head text difficulty) [HASH] = false.
Proof.
  unfold prompt_head. rewrite !app_assoc. now rewrite endswith_app.
Qed.

(** X12: the format that the prompt asks for is one that the parser
    reads: whatever the text and the difficulty are, a model that answers
    with the prompt itself gets the three placeholders as notes. *)
Theorem generate_notes_prompt_format (text difficulty : str) :
  generate_notes (fun prompt => Some prompt) text difficulty
  = mkSections placeholder placeholder placeholder.
Proof.
  rewrite generate_notes_parses. unfold response_text.
  rewrite build_prompt_blocks.
  rewrite (three_blocks ShortNotes BulletPoints ExamSummary);
    try reflexivity.
  apply prompt_head_end.
Qed.

(** ** The paths of the PDF Text Extractor *)

Lemma mapM_get_text_all (ps : list (option str)) (st : fitz_state) :
  mapM get_text ps st =
  match all_texts ps with
  | Some texts => (Ok texts, st)
  | None => (Raise FitzError, st)
  end.
Proof.
  induction ps as [| pg ps IH]; [reflexivity |].
  cbn [mapM all_texts]. unfold bind at 1. destruct pg as [t |]; cbn.
  - unfold bind. rewrite IH. now destruct (all_texts ps).
  - reflexivity.
Qed.

Lemma extract_text_from_pdf_cases
    (pdf_pages : bytes -> option (list (option str)))
    (file_bytes : bytes) (st : fitz_state) :
  extract_text_from_pdf pdf_pages file_bytes st =
  match pdf_pages file_bytes with
  | None => (Raise extraction_failed, st)
  | Some ps =>
      match all_texts ps with
      | Some texts =>
          (Ok (join [SP] texts),
           mkFitz (S (next_handle st))
             (filter (fun k => negb (Nat.eqb k (next_handle st)))
                (next_handle st :: open_documents st)))
      | None =>
          (Raise extraction_failed,
           mkFitz (S (next_handle st))
             (next_handle st :: open_documents st))
      end
  end.
Proof.
  unfold extract_text_from_pdf, try_except, bind, fitz_open.
  destruct (pdf_pages file_bytes) as [ps |]; [| reflexivity].
  cbn [pages handle]. rewrite mapM_get_text_all.
  now destruct (all_texts ps).
Qed.

Lemma close_own_handle (st : fitz_state) :
  handles_fresh st ->
  filter (fun k => negb (Nat.eqb k (next_handle st)))
    (next_handle st :: open_documents st)
  = open_documents st.
Proof.
  intros H. cbn [filter]. rewrite Nat.eqb_refl. cbn [negb].
  now apply filter_fresh.
Qed.

(** X13: when the document opens and every page can be read,
    [extract_text_from_pdf] returns the texts of the pages in page order
    with one space between them, and the document it opened is closed
    again: the open documents are those from before the call. *)
Theorem extract_text_from_pdf_pages
    (pdf_pages : bytes -> option (list (option str)))
    (file_bytes : bytes) (st : fitz_state)
    (ps : list (option str)) (texts : list str) :
  pdf_pages file_bytes = Some ps ->
  all_texts ps = Some texts ->
  handles_fresh st ->
  extract_text_from_pdf pdf_pages file_bytes st
  = (Ok (join [SP] texts), mkFitz (S (next_handle st)) (open_documents st)).
Proof.
  intros Hp Ht Hf. rewrite extract_text_from_pdf_cases, Hp, Ht.
  now rewrite close_own_handle.
Qed.

Lemma extract_text_from_pdf_pages_witness :
  extract_text_from_pdf two_pages [] busy_state
  = (Ok (py "Heat is energy."), mkFitz 4 [2%nat; 0%nat]).
Proof.
  apply (extract_text_from_pdf_pages two_pages [] busy_state
           [Some (py "Heat is"); Some (py "energy.")]
           [py "Heat is"; py "energy."]).
  - reflexivity.
  - reflexivity.
  - repeat constructor.
Defined.

(** X14: the only exception that leaves [extract_text_from_pdf] is the
    400 error "PDF text extraction failed": an error of the PDF library,
    at opening or at a page, never escapes as it is. *)
Theorem extract_text_from_pdf_errors
    (pdf_pages : bytes -> option (list (option str)))
    (file_bytes : bytes) (st : fitz_state) :
  match fst (extract_text_from_pdf pdf_pages file_bytes st) with
  | Ok _ => True
  | Raise e => e = HTTPException 400 (py "PDF text extraction failed")
  end.
Proof.
  rewrite extract_text_from_pdf_cases.
  destruct (pdf_pages file_bytes) as [ps |]; [| reflexivity].
  destruct (all_texts ps); [exact I | reflexivity].
Qed.

(** X15: a buffer that the PDF library cannot open gives the 400 error
    and opens nothing: the state of the library is as before. *)
Theorem extract_text_from_pdf_not_opened
    (pdf_pages : bytes -> option (list (option str)))
    (file_bytes : bytes) (st : fitz_state) :
  pdf_pages file_bytes = None ->
  extract_text_from_pdf pdf_pages file_bytes st
  = (Raise (HTTPException 400 (py "PDF text extraction failed")), st).
Proof.
  intros H. now rewrite extract_text_from_pdf_cases, H.
Qed.

Lemma extract_text_from_pdf_not_opened_witness :
  extract_text_from_pdf no_pdf (ascii_bytes "not a pdf") busy_state
  = (Raise (HTTPException 400 (py "PDF text extraction failed")), busy_state).
Proof. apply extract_text_from_pdf_not_opened. reflexivity. Defined.

Lemma fresh_step (n : nat) (l : list nat) :
  Forall (fun k => (k < n)%nat) l -> Forall (fun k => (k < S n)%nat) l.
Proof.
  intros H. eapply Forall_impl; [| exact H]. cbn. intros k Hk. lia.
Qed.

Lemma extract_text_from_pdf_keeps
    (pdf_pages : bytes -> option (list (option str)))
    (file_bytes : bytes) (st : fitz_state) :
  handles_fresh st ->
  handles_fresh (snd (extract_text_from_pdf pdf_pages file_bytes st))
  /\ incl (open_documents st)
       (open_documents (snd (extract_text_from_pdf pdf_pages file_bytes st))).
Proof.
  intros H. rewrite extract_text_from_pdf_cases.
  destruct (pdf_pages file_bytes) as [ps |].
  - destruct (all_texts ps); cbn [snd].
    + rewrite close_own_handle by assumption. split.
      * now apply fresh_step.
      * apply incl_refl.
    + split.
      * unfold handles_fresh. cbn. constructor; [lia | now apply fresh_step].
      * cbn. apply incl_tl, incl_refl.
  - split; [assumption | apply incl_refl].
Qed.

(** ** The paths of the upload *)

Lemma upload_file_cases
    (pdf_pages : bytes -> option (list (option str)))
    (filename : str) (file_bytes : bytes) (st : fitz_state) :
  upload_file pdf_pages filename file_bytes st =
  match read_text pdf_pages filename file_bytes st with
  | (Ok text, st') =>
      (if null (clean_text text) then Raise no_valid_text
       else Ok (clean_text text), st')
  | (Raise e, st') => (Raise e, st')
  end.
Proof.
  unfold upload_file, bind.
  destruct (read_text pdf_pages filename file_bytes st) as [[text | e] st'];
    [| reflexivity].
  now destruct (null (clean_text text)).
Qed.

(** X16: a text that [upload_file] returns is never empty; it has no
    whitespace at its ends and no two neighbouring spaces. *)
Theorem upload_file_text
    (pdf_pages : bytes -> option (list (option str)))
    (filename : str) (file_bytes : bytes) (st st' : fitz_state) (t : str) :
  upload_file pdf_pages filename file_bytes st = (Ok t, st') ->
  null t = false /\ strip t = t /\ double_space t = false.
Proof.
  rewrite upload_file_cases.
  destruct (read_text pdf_pages filename file_bytes st) as [[text | e] st1];
    [| discriminate].
  destruct (null (clean_text text)) eqn:E; [discriminate |].
  intros H. injection H as <- _. split; [exact E |]. split.
  - destruct (clean_text_shape text) as [F | [T _]].
    + now rewrite F.
    + now apply strip_tight.
  - rewrite clean_text_kept. apply squeeze_double_space.
Qed.

Lemma upload_file_text_witness :
  null (py "Heat is energy.") = false
  /\ strip (py "Heat is energy.") = py "Heat is energy."
  /\ double_space (py "Heat is energy.") = false.
Proof.
  apply (upload_file_text two_pages (py "notes.pdf") [] busy_state
           (mkFitz 4 [2%nat; 0%nat])).
  vm_compute. reflexivity.
Defined.

(** X17: the exceptions that leave [upload_file] are the three 400
    errors (unsupported format, failed extraction, no valid text) and the
    decoding error of a text file; an error of the PDF library never
    escapes. *)
Theorem upload_file_errors
    (pdf_pages : bytes -> option (list (option str)))
    (filename : str) (file_bytes : bytes) (st : fitz_state) :
  match fst (upload_file pdf_pages filename file_bytes st) with
  | Ok _ => True
  | Raise e => In e upload_errors
  end.
Proof.
  rewrite upload_file_cases. unfold read_text.
  destruct (endswith filename (py ".pdf")).
  - rewrite extract_text_from_pdf_cases.
    destruct (pdf_pages file_bytes) as [ps |]; [| cbn; auto].
    destruct (all_texts ps) as [texts |]; [| cbn; auto].
    destruct (null (clean_text (join [SP] texts))); cbn; auto.
  - destruct (endswith filename (py ".txt")); [| cbn; auto].
    unfold decode. destruct (utf8_decode file_bytes) as [t |]; [| cbn; auto].
    unfold ret. destruct (null (clean_text t)); cbn; auto.
Qed.

(** X18: a file whose name ends in ".txt" (and not in ".pdf") is decided
    by its bytes alone: invalid UTF-8 raises the decoding error, which is
    not turned into a 400 error; otherwise the decoded text is cleaned.
    The PDF library is not used and its state is unchanged. *)
Theorem upload_file_txt
    (pdf_pages : bytes -> option (list (option str)))
    (filename : str) (file_bytes : bytes) (st : fitz_state) :
  endswith filename (py ".pdf") = false ->
  endswith filename (py ".txt") = true ->
  upload_file pdf_pages filename file_bytes st =
  (match utf8_decode file_bytes with
   | None => Raise UnicodeDecodeError
   | Some t =>
       if null (clean_text t)
       then Raise (HTTPException 400 (py "No valid text found"))
       else Ok (clean_text t)
   end, st).
Proof.
  intros H1 H2. rewrite upload_file_cases. unfold read_text.
  rewrite H1, H2. unfold decode.
  now destruct (utf8_decode file_bytes).
Qed.

Lemma upload_file_txt_witness :
  upload_file unreadable_pdf (py "notes.txt") [xc3; x28] busy_state
  = (Raise UnicodeDecodeError, busy_state)
  /\ upload_file unreadable_pdf (py "notes.txt")
       (ascii_bytes "Heat  is" ++ [x0d; x0a] ++ ascii_bytes "energy.")
       busy_state
     = (Ok (py "Heat is energy."), busy_state).
Proof.
  split.
  - apply (upload_file_txt unreadable_pdf (py "notes.txt") [xc3; x28]);
      vm_compute; reflexivity.
  - apply (upload_file_txt unreadable_pdf (py "notes.txt")
             (ascii_bytes "Heat  is" ++ [x0d; x0a] ++ ascii_bytes "energy."));
      vm_compute; reflexivity.
Defined.

(** X19: for a file whose name ends in ".pdf" the bytes are never
    decoded as text: when every page can be read, the page texts joined
    by spaces are cleaned, the result is returned (or the 400 error "No
    valid text found" when nothing is left), and the document is closed
    again. *)
Theorem upload_file_pdf
    (pdf_pages : bytes -> option (list (option str)))
    (filename : str) (file_bytes : bytes) (st : fitz_state)
    (ps : list (option str)) (texts : list str) :
  endswith filename (py ".pdf") = true ->
  pdf_pages file_bytes = Some ps ->
  all_texts ps = Some texts ->
  handles_fresh st ->
  upload_file pdf_pages filename file_bytes st =
  (if null (clean_text (join [SP] texts))
   then Raise (HTTPException 400 (py "No valid text found"))
   else Ok (clean_text (join [SP] texts)),
   mkFitz (S (next_handle st)) (open_documents st)).
Proof.
  intros H1 Hp Ht Hf. rewrite upload_file_cases. unfold read_text.
  rewrite H1, extract_text_from_pdf_cases, Hp, Ht.
  now rewrite close_own_handle.
Qed.

Lemma upload_file_pdf_witness :
  upload_file two_pages (py "notes.txt.pdf") (ascii_bytes "plain text")
    busy_state
  = (Ok (py "Heat is energy."), mkFitz 4 [2%nat; 0%nat]).
Proof.
  apply (upload_file_pdf two_pages (py "notes.txt.pdf")
           (ascii_bytes "plain text") busy_state
           [Some (py "Heat is"); Some (py "energy.")]
           [py "Heat is"; py "energy."]).
  - vm_compute. reflexivity.
  - reflexivity.
  - reflexivity.
  - repeat constructor.
Defined.

(** X20: [upload_file] never closes a document that was open before the
    call, and it keeps the handles in order: when every open document has
    a handle below the next one before the call, so it is after. *)
Theorem upload_file_keeps_documents
    (pdf_pages : bytes -> option (list (option str)))
    (filename : str) (file_bytes : bytes) (st : fitz_state) :
  handles_fresh st ->
  handles_fresh (snd (upload_file pdf_pages filename file_bytes st))
  /\ incl (open_documents st)
       (open_documents (snd (upload_file pdf_pages filename file_bytes st))).
Proof.
  intros H.
  assert (E : snd (upload_file pdf_pages filename file_bytes st)
              = snd (read_text pdf_pages filename file_bytes st)).
  { rewrite upload_file_cases.
    now destruct (read_text pdf_pages filename file_bytes st) as [[t | e] s]. }
  rewrite E. unfold read_text.
  destruct (endswith filename (py ".pdf")).
  - now apply extract_text_from_pdf_keeps.
  - assert (S0 : forall m : M str,
               (forall s, snd (m s) = s) ->
               handles_fresh (snd (m st))
               /\ incl (open_documents st) (open_documents (snd (m st)))).
    { intros m Hm. rewrite Hm. split; [assumption | apply incl_refl]. }
    destruct (endswith filename (py ".txt")); apply S0; intros s.
    + unfold decode. now destruct (utf8_decode file_bytes).
    + reflexivity.
Qed.

Lemma upload_file_keeps_documents_witness :
  handles_fresh
    (snd (upload_file unreadable_pdf (py "notes.pdf") [] busy_state))
  /\ incl (open_documents busy_state)
       (open_documents
          (snd (upload_file unreadable_pdf (py "notes.pdf") [] busy_state))).
Proof.
  apply upload_file_keeps_documents. repeat constructor.
Defined.

(** ** The allowed origins *)

Lemma cons_first_length (a : char) (parts : list str) :
  parts <> [] -> List.length (cons_first a parts) = List.length parts.
Proof. destruct parts; [congruence | reflexivity]. Qed.

Lemma split_single_length (c : char) (s : str) :
  List.length (split [c] s) = S (count_occ N.eq_dec s c).
Proof.
  induction s as [| a s IH]; [reflexivity |].
  rewrite split_single. destruct (N.eqb_spec c a) as [-> | Hc].
  - rewrite count_occ_cons_eq by reflexivity. cbn [List.length]. now rewrite IH.
  - rewrite count_occ_cons_neq by congruence.
    rewrite cons_first_length by apply split_from_nonempty. exact IH.
Qed.

(** X21: the allowed origins are the pieces of the configured value
    between its commas, the single origin "*" when nothing is configured:
    joined by commas they give the value back, there is one more origin
    than there are commas (so the list is never empty), and no origin
    holds a comma. *)
Theorem cors_allow_origins_pieces (env : option str) :
  let value := match env with Some v => v | None => py "*" end in
  join [COMMA] (cors_allow_origins env) = value
  /\ List.length (cors_allow_origins env)
     = S (count_occ N.eq_dec value COMMA)
  /\ forallb (forallb (fun x => negb (x =? COMMA))) (cors_allow_origins env)
     = true
  /\ cors_allow_origins None = [py "*"].
Proof.
  intros value. unfold cors_allow_origins. fold value.
  split; [apply join_split |]. split; [apply split_single_length |].
  split; [| reflexivity].
  apply forallb_forall. intros part Hp.
  pose proof (split_single_parts COMMA value) as H.
  rewrite Forall_forall in H. now apply H.
Qed.

(** ** Decoding *)

Lemma utf8_decode_ascii_step (b : byte) (bs : bytes) :
  (Byte.to_N b <? 0x80) = true ->
  utf8_decode (b :: bs) = option_map (cons (Byte.to_N b)) (utf8_decode bs).
Proof. intros H. cbn [utf8_decode]. now rewrite H. Qed.

(** X22: bytes below 0x80 are decoded one by one to the characters with
    the same numbers: an ASCII file is read as it is. *)
Theorem utf8_decode_ascii (bs : bytes) :
  forallb (fun b => Byte.to_N b <? 0x80) bs = true ->
  utf8_decode bs = Some (map Byte.to_N bs).
Proof.
  induction bs as [| b bs IH]; [reflexivity |].
  cbn [forallb]. intros H. apply andb_true_iff in H. destruct H as [Hb Hbs].
  rewrite utf8_decode_ascii_step by assumption. now rewrite IH.
Qed.

Lemma utf8_decode_ascii_witness :
  utf8_decode (ascii_bytes "Page 1") = Some (py "Page 1").
Proof.
  apply (utf8_decode_ascii (ascii_bytes "Page 1")). vm_compute. reflexivity.
Defined.

Lemma option_map_cons_some (c : char) (o : option str) (s : str) :
  option_map (cons c) o = Some s -> exists s', s = c :: s' /\ o = Some s'.
Proof.
  destruct o as [s' |]; [| discriminate]. intros H. injection H as <-.
  now exists s'.
Qed.

Ltac bool_facts :=
  repeat match goal with
    | H : _ && _ = true |- _ => apply andb_true_iff in H; destruct H
    | H : (_ <=? _) = true |- _ => apply N.leb_le in H
    | H : (_ <? _) = true |- _ => apply N.ltb_lt in H
    | H : (_ <? _) = false |- _ => apply N.ltb_ge in H
    | H : (_ =? _) = true |- _ => apply N.eqb_eq in H
    | H : (_ =? _) = false |- _ => apply N.eqb_neq in H
    end.

Lemma is_scalar_range (c : char) :
  c < 0xd800 \/ (0xe000 <= c /\ c < 0x110000) -> is_scalar c = true.
Proof.
  intros H. unfold is_scalar. apply andb_true_iff. split.
  - apply N.ltb_lt. lia.
  - apply negb_true_iff. apply andb_false_iff.
    destruct H as [H | H]; [left | right]; apply N.leb_gt; lia.
Qed.

(** One step of the decoder: the first character is a scalar value and
    the rest of the text comes from a shorter rest of the bytes. *)
Lemma utf8_decode_step (b0 : byte) (r0 : bytes) (s : str) :
  utf8_decode (b0 :: r0) = Some s ->
  exists c s' rest,
    s = c :: s' /\ is_scalar c = true /\ utf8_decode rest = Some s'
    /\ (List.length rest <= List.length r0)%nat.
Proof.
  cbn [utf8_decode]. set (x0 := Byte.to_N b0).
  destruct (x0 <? 0x80) eqn:E1.
  { intros H. apply option_map_cons_some in H. destruct H as [s' [-> H]].
    exists x0, s', r0. repeat split; try assumption; [| lia].
    apply is_scalar_range. bool_facts. lia. }
  destruct ((0xc2 <=? x0) && (x0 <=? 0xdf)) eqn:E2.
  { destruct r0 as [| b1 r1]; [discriminate |]. set (x1 := Byte.to_N b1).
    unfold is_cont. destruct ((0x80 <=? x1) && (x1 <=? 0xbf)) eqn:C1;
      [| discriminate].
    intros H. apply option_map_cons_some in H. destruct H as [s' [-> H]].
    eexists _, s', r1. repeat split; try eassumption; [| cbn; lia].
    apply is_scalar_range. bool_facts. lia. }
  destruct ((0xe0 <=? x0) && (x0 <=? 0xef)) eqn:E3.
  { destruct r0 as [| b1 [| b2 r2]]; [discriminate | discriminate |].
    set (x1 := Byte.to_N b1). set (x2 := Byte.to_N b2). unfold is_cont.
    destruct (x0 =? 0xe0) eqn:L; destruct (x0 =? 0xed) eqn:U;
      match goal with
      | |- context [(?lo <=? x1) && (x1 <=? ?hi) && ?t] =>
          destruct ((lo <=? x1) && (x1 <=? hi) && t) eqn:C
      end; try discriminate;
      intros H; apply option_map_cons_some in H; destruct H as [s' [-> H]];
      eexists _, s', r2; (repeat split; try eassumption; [| cbn; lia]);
      apply is_scalar_range; bool_facts; lia. }
  destruct ((0xf0 <=? x0) && (x0 <=? 0xf4)) eqn:E4; [| discriminate].
  destruct r0 as [| b1 [| b2 [| b3 r3]]]; try discriminate.
  set (x1 := Byte.to_N b1). set (x2 := Byte.to_N b2).
  set (x3 := Byte.to_N b3). unfold is_cont.
  destruct (x0 =? 0xf0) eqn:L; destruct (x0 =? 0xf4) eqn:U;
    match goal with
    | |- context [(?lo <=? x1) && (x1 <=? ?hi) && ?t && ?u] =>
        destruct ((lo <=? x1) && (x1 <=? hi) && t && u) eqn:C
    end; try discriminate;
    intros H; apply option_map_cons_some in H; destruct H as [s' [-> H]];
    eexists _, s', r3; (repeat split; try eassumption; [| cbn; lia]);
    apply is_scalar_range; bool_facts; lia.
Qed.

(** X23: a text decoded from the bytes of an upload consists of Unicode
    scalar values only: no code point above U+10FFFF and no surrogate. *)
Theorem utf8_decode_scalar (bs : bytes) (s : str) :
  utf8_decode bs = Some s -> forallb is_scalar s = true.
Proof.
  remember (List.length bs) as n eqn:En.
  assert (Hn : (List.length bs <= n)%nat) by lia. clear En.
  revert bs s Hn. induction n as [| n IH]; intros bs s Hn H.
  - destruct bs; [| cbn in Hn; lia]. cbn in H. now injection H as <-.
  - destruct bs as [| b0 r0]; [cbn in H; now injection H as <- |].
    apply utf8_decode_step in H.
    destruct H as [c [s' [rest [-> [Hc [Hd Hl]]]]]].
    cbn [forallb]. rewrite Hc. cbn [andb].
    apply (IH rest); [cbn in Hn; lia | assumption].
Qed.

Lemma utf8_decode_scalar_witness :
  forallb is_scalar [0x48; 0xe9; 0x20ac; 0x1f600] = true.
Proof.
  apply (utf8_decode_scalar
           [x48; xc3; xa9; xe2; x82; xac; xf0; x9f; x98; x80]).
  vm_compute. reflexivity.
Defined.

(** ** Nothing is lost between the parts *)

Lemma join_cons_first_sep (sep : str) (a : char) (parts : list str) :
  parts <> [] -> join sep (cons_first a parts) = a :: join sep parts.
Proof. destruct parts as [| p [| q ps]]; [congruence | reflexivity ..]. Qed.

Lemma join_split_from (a : char) (sep s : str) :
  forall k, (k <= List.length s)%nat ->
            join (a :: sep) (split_from (a :: sep) k s) = skipn k s.
Proof.
  induction s as [| c s IH]; intros k Hk.
  - assert (k = O) by (cbn in Hk; lia). now subst.
  - destruct k as [| k]; [| cbn [split_from skipn]; apply IH; cbn in Hk; lia].
    cbn [split_from skipn].
    destruct (startswith (c :: s) (a :: sep)) eqn:E.
    + rewrite join_cons by apply split_from_nonempty.
      apply startswith_prefix in E. destruct E as [t E].
      cbn [app] in E. injection E as -> ->.
      cbn [List.length Nat.pred]. rewrite IH by (rewrite length_app; lia).
      rewrite skipn_app, skipn_all, Nat.sub_diag. reflexivity.
    + rewrite join_cons_first_sep by apply split_from_nonempty.
      now rewrite IH by lia.
Qed.

Lemma startswith_app_l (s t p : str) :
  startswith s p = true -> startswith (s ++ t) p = true.
Proof.
  intros H. apply startswith_prefix in H. destruct H as [u ->].
  rewrite <- app_assoc. apply startswith_app.
Qed.

Lemma split_from_parts_free (a : char) (sep s : str) :
  forall k, Forall (fun p => contains (a :: sep) p = false)
              (split_from (a :: sep) k s).
Proof.
  induction s as [| c s IH]; intros k.
  - repeat constructor.
  - cbn [split_from]. destruct k as [| k]; [| apply IH].
    destruct (startswith (c :: s) (a :: sep)) eqn:E.
    + constructor; [reflexivity | apply IH].
    + destruct (split_first_prefix (a :: sep) s) as [q [qs [b [Eq Es]]]].
      specialize (IH O). rewrite Eq in *. cbn [cons_first].
      pose proof (Forall_inv IH) as Hq. pose proof (Forall_inv_tail IH) as Hqs.
      cbn beta in Hq. constructor; [| assumption].
      rewrite contains_eq, Hq, orb_false_r.
      destruct (startswith (c :: q) (a :: sep)) eqn:F; [| reflexivity].
      apply (startswith_app_l _ b) in F. cbn [app] in F.
      rewrite <- Es in F. congruence.
Qed.

(** X24: splitting the response loses nothing and leaves no delimiter
    behind: the parts joined by the delimiter give the response back, and
    no part holds the delimiter. *)
Theorem response_parts (output : str) :
  join DELIMITER (split DELIMITER output) = output
  /\ forallb (fun part => negb (contains DELIMITER part))
       (split DELIMITER output) = true.
Proof.
  change DELIMITER with (HASH :: [HASH; HASH]). split.
  - unfold split. now rewrite join_split_from by lia.
  - apply forallb_forall. intros part Hp. apply negb_true_iff.
    pose proof (split_from_parts_free HASH [HASH; HASH] output O) as H.
    rewrite Forall_forall in H. now apply H.
Qed.
